(** * The star-rating editor of the library view

    A shallow embedding of [src/library/stareditor.cpp]: the widget that lets
    the user set a star rating with the mouse.  The embedding follows the C++
    text function by function:

    - C++ [int] is a 32-bit signed integer; its operations are partial
      (division by zero and signed overflow are undefined behaviour) and are
      modelled in the [option] monad, [None] standing for undefined behaviour;
    - C++ [double] is IEEE-754 binary64, each operation rounded to nearest,
      ties to even, modelled with the executable specification of
      [SpecFloat];
    - the Qt value classes the editor reads and writes are records;
    - what a handler asks of the toolkit (a redraw, a signal, painter calls)
      is returned as a list of effects next to the new editor state. *)

From Stdlib Require Import ZArith Bool List Lia SpecFloat QArith.
Import ListNotations.
Local Open Scope Z_scope.

(** ** The option monad for partial C++ operations *)

Definition bind {A B : Type} (m : option A) (f : A -> option B) : option B :=
  match m with
  | Some a => f a
  | None => None
  end.

Notation "x <- m ;; k" := (bind m (fun x => k))
  (at level 61, m at next level, right associativity).

(** ** C++ [int] *)

Module Int.

Definition min : Z := - 2 ^ 31.
Definition max : Z := 2 ^ 31 - 1.

Definition in_range (z : Z) : Prop := min <= z <= max.

Definition in_rangeb (z : Z) : bool := (min <=? z) && (z <=? max).

(** The result of an arithmetic operation, when it is representable. *)
Definition checked (z : Z) : option Z :=
  if in_rangeb z then Some z else None.

Definition add (a b : Z) : option Z := checked (a + b).
Definition sub (a b : Z) : option Z := checked (a - b).

(** [a / b]: truncation towards zero, undefined for a zero divisor. *)
Definition div (a b : Z) : option Z :=
  if b =? 0 then None else checked (Z.quot a b).

End Int.

(** ** C++ [double] *)

Module Double.

Definition prec : Z := 53.
Definition emax : Z := 1024.

Definition double : Type := spec_float.

(** Conversion of an [int] to [double]. *)
Definition of_int (n : Z) : double := binary_normalize prec emax n 0 false.

Definition mul : double -> double -> double := SFmul prec emax.
Definition neg : double -> double := SFopp.
Definition ltb : double -> double -> bool := SFltb.

(** The literal [0.05]: the binary64 number nearest to 5/100,
    0x3FA999999999999A. *)
Definition lit_0_05 : double := S754_finite false 7205759403792794 (-57).

End Double.

(** ** The Qt value classes used by the editor *)

Module Qt.

Record QSize := { size_width : Z; size_height : Z }.

Record QRect :=
  { rect_x : Z; rect_y : Z; rect_width : Z; rect_height : Z }.

(** [QStyle::State]: a set of flags in an [int]. *)
Definition State : Type := Z.
Definition State_Enabled : State := 0x1.
Definition State_MouseOver : State := 0x2000.
Definition State_Selected : State := 0x8000.
Definition State_Active : State := 0x10000.

(** [state & flag], read as a condition. *)
Definition testFlag (state flag : State) : bool :=
  negb (Z.land state flag =? 0).

Inductive ColorGroup := Normal | Disabled | Inactive.
Inductive ColorRole := Text | HighlightedText.

(** A color is its RGBA word; a palette maps group and role to a color. *)
Definition QColor : Type := Z.
Definition QPalette : Type := ColorGroup -> ColorRole -> QColor.

Record QStyleOptionViewItem :=
  { rect : QRect; state : State; palette : QPalette }.

Definition set_state (o : QStyleOptionViewItem) (s : State) :=
  {| rect := rect o; state := s; palette := palette o |}.

Definition set_rect (o : QStyleOptionViewItem) (r : QRect) :=
  {| rect := r; state := state o; palette := palette o |}.

Record QModelIndex := { row : Z; column : Z }.

Record QItemSelectionModel := { isSelected : QModelIndex -> bool }.

(** A [QStyle] is known by its handle only. *)
Definition QStyle : Type := Z.

(** The hosting view: [style()] and [selectionModel()] return pointers
    that may be null. *)
Record QTableView :=
  { style : option QStyle; selectionModel : option QItemSelectionModel }.

Inductive MouseButton := LeftButton | RightButton | MiddleButton | NoButton.

(** A mouse event: [ev_x] is the x coordinate of the pointer as the [int]
    the handler reads ([event->x()], or with Qt 6 [event->position().x()]
    converted to [int]), [button] the button that caused the event. *)
Record QMouseEvent := { ev_x : Z; button : MouseButton }.

End Qt.

Import Qt.

(** ** [StarRating]

    The class is declared in [library/starrating.h]; the editor uses its
    accessors only. *)

Module StarRating.

Record t :=
  { starCount : Z;       (* the displayed count *)
    maxStarCount : Z;
    sizeHint : QSize }.  (* the natural size of the whole star strip *)

(** Modelled from the spec: [StarRating::kMinStarCount], declared in
    [library/starrating.h]; the star count ranges over
    [0 .. maxStarCount], so the minimum is 0. *)
Definition kMinStarCount : Z := 0.

(** Modelled from the spec: [StarRating::setStarCount], defined in
    [library/starrating.h]; it stores the count. *)
Definition setStarCount (r : t) (n : Z) : t :=
  {| starCount := n; maxStarCount := maxStarCount r; sizeHint := sizeHint r |}.

End StarRating.

(** ** What a handler asks of the toolkit *)

(** The calls made on the painter. *)
Inductive paint_op :=
  | Save
  | Restore
  | SetClipRect (r : QRect)
  | DrawItemViewItem (s : QStyle) (o : QStyleOptionViewItem)
  | SetBrush (c : QColor)
  | PaintStars (r : StarRating.t) (area : QRect).

(** Modelled from the spec: [PainterScope], declared in
    [util/painterscope.h]; it saves the state of the painter where it is
    declared and restores it when the enclosing function is left. *)
Definition painterScope (body : list paint_op) : list paint_op :=
  [Save] ++ body ++ [Restore].

Inductive effect :=
  | SetStarCount (n : Z)                   (* m_starRating.setStarCount(n) *)
  | Update                                 (* QWidget::update() *)
  | EditingFinished                        (* emit editingFinished() *)
  | Painted (ops : list paint_op).

(** ** [StarEditor] *)

Module StarEditor.

Definition kInvalidStarCount : Z := StarRating.kMinStarCount - 1.

Record t :=
  { m_pTableView : option QTableView;
    m_index : QModelIndex;
    m_styleOption : QStyleOptionViewItem;
    m_starRating : StarRating.t;
    m_starCount : Z }.

Definition set_styleOption (e : t) (o : QStyleOptionViewItem) : t :=
  {| m_pTableView := m_pTableView e; m_index := m_index e;
     m_styleOption := o; m_starRating := m_starRating e;
     m_starCount := m_starCount e |}.

Definition set_starRating (e : t) (r : StarRating.t) : t :=
  {| m_pTableView := m_pTableView e; m_index := m_index e;
     m_styleOption := m_styleOption e; m_starRating := r;
     m_starCount := m_starCount e |}.

(** The constructor.  [m_starRating] is default-constructed; the default
    rating is a parameter here, [StarRating]'s constructor being declared
    in [library/starrating.h]. *)
Definition create (pTableView : option QTableView) (index : QModelIndex)
    (option : QStyleOptionViewItem) (defaultRating : StarRating.t) : t :=
  {| m_pTableView := pTableView; m_index := index; m_styleOption := option;
     m_starRating := defaultRating;
     m_starCount := StarRating.kMinStarCount |}.

Definition sizeHint (e : t) : QSize := StarRating.sizeHint (m_starRating e).

Definition renderHelper (pTableView : option QTableView)
    (option : QStyleOptionViewItem) (pStarRating : StarRating.t)
    : list paint_op :=
  let chrome :=
    match pTableView with
    | Some view =>
        match style view with
        | Some s => [DrawItemViewItem s option]
        | None => []
        end
    | None => []
    end in
  let cg := if testFlag (state option) State_Enabled
            then Normal else Disabled in
  let cg := match cg with
            | Normal =>
                if negb (testFlag (state option) State_Active)
                then Inactive else cg
            | _ => cg
            end in
  let brush :=
    if testFlag (state option) State_Selected
    then SetBrush (palette option cg HighlightedText)
    else SetBrush (palette option cg Text) in
  painterScope
    ([SetClipRect (rect option)] ++ chrome ++
     [brush; PaintStars pStarRating (rect option)]).

(** [paintEvent]; [bounds] is what [QWidget::rect()] returns. *)
Definition paintEvent (bounds : QRect) (e : t) : t * list effect :=
  let o := m_styleOption e in
  let o := set_state o (Z.lor (state o) State_MouseOver) in
  let o := set_rect o bounds in
  let o :=
    match m_pTableView e with
    | Some view =>
        match selectionModel view with
        | Some model =>
            if isSelected model (m_index e)
            then set_state o (Z.lor (state o) State_Selected)
            else o
        | None => o
        end
    | None => o
    end in
  let e := set_styleOption e o in
  (e, [Painted (renderHelper (m_pTableView e) (m_styleOption e)
                             (m_starRating e))]).

(** Modelled from the spec: [StarEditor::resetRating], defined in
    [library/stareditor.h]; it resets the displayed rating to the last
    confirmed value and asks for a redraw. *)
Definition resetRating (e : t) : t * list effect :=
  (set_starRating e (StarRating.setStarCount (m_starRating e) (m_starCount e)),
   [SetStarCount (m_starCount e); Update]).

Definition starAtPosition (e : t) (x : Z) : option Z :=
  let starsWidth := size_width (StarRating.sizeHint (m_starRating e)) in
  d <- Int.sub (rect_width (rect (m_styleOption e))) starsWidth ;;
  h <- Int.div d 2 ;;
  let xOffset := Z.max h 0 in
  x <- Int.sub x (Z.max xOffset 0) ;;
  let leftVoid :=
    if Double.ltb (Double.mul (Double.of_int starsWidth) Double.lit_0_05)
                  (Double.of_int xOffset)
    then Double.mul (Double.of_int starsWidth) (Double.neg Double.lit_0_05)
    else Double.of_int 0 in
  if Double.ltb (Double.of_int x) leftVoid || (starsWidth <=? x)
  then Some kInvalidStarCount
  else if Double.ltb (Double.of_int x)
            (Double.mul (Double.of_int starsWidth) Double.lit_0_05)
  then Some 0
  else
    q <- Int.div starsWidth (StarRating.maxStarCount (m_starRating e)) ;;
    p <- Int.div x q ;;
    star <- Int.add p 1 ;;
    if (star <=? 0) || (StarRating.maxStarCount (m_starRating e) <? star)
    then Some 0
    else Some star.

Definition mouseMoveEvent (event : QMouseEvent) (e : t)
    : option (t * list effect) :=
  let eventPosition := ev_x event in
  star <- starAtPosition e eventPosition ;;
  if star <=? kInvalidStarCount then Some (resetRating e)
  else if negb (star =? StarRating.starCount (m_starRating e))
  then Some (set_starRating e (StarRating.setStarCount (m_starRating e) star),
             [SetStarCount star; Update])
  else Some (e, []).

Definition leaveEvent (e : t) : t * list effect := resetRating e.

Definition mouseReleaseEvent (event : QMouseEvent) (e : t)
    : t * list effect :=
  (e, [EditingFinished]).

End StarEditor.

Import StarEditor.

(** ** The lifetime of an editor

    The windowing system delivers events one at a time; each handler runs
    to completion on the state the previous one left. *)

Inductive event :=
  | MouseMove (ev : QMouseEvent)
  | Leave
  | MouseRelease (ev : QMouseEvent)
  | Paint (bounds : QRect).

Definition handle (ev : event) (e : StarEditor.t)
    : option (StarEditor.t * list effect) :=
  match ev with
  | MouseMove m => mouseMoveEvent m e
  | Leave => Some (leaveEvent e)
  | MouseRelease m => Some (mouseReleaseEvent m e)
  | Paint bounds => Some (paintEvent bounds e)
  end.

Fixpoint run (evs : list event) (e : StarEditor.t)
    : option (StarEditor.t * list effect) :=
  match evs with
  | [] => Some (e, [])
  | ev :: rest =>
      match handle ev e with
      | Some (e1, fx1) =>
          match run rest e1 with
          | Some (e2, fx2) => Some (e2, fx1 ++ fx2)
          | None => None
          end
      | None => None
      end
  end.

(** ** Vocabulary of the specification *)

Definition starsWidth (e : StarEditor.t) : Z :=
  size_width (StarRating.sizeHint (m_starRating e)).

Definition cellWidth (e : StarEditor.t) : Z :=
  rect_width (rect (m_styleOption e)).

Definition maxStars (e : StarEditor.t) : Z :=
  StarRating.maxStarCount (m_starRating e).

Definition displayed (e : StarEditor.t) : Z :=
  StarRating.starCount (m_starRating e).

(** The centering offset, and the pointer position relative to the first
    star. *)
Definition xOffset (e : StarEditor.t) : Z :=
  Z.max (Z.quot (cellWidth e - starsWidth e) 2) 0.

Definition shifted (e : StarEditor.t) (x : Z) : Z := x - xOffset e.

(** The [int] computations of the shift are defined: the width of the
    stars is an [int] and neither subtraction overflows. *)
Definition in_domain (e : StarEditor.t) (x : Z) : Prop :=
  Int.in_range (starsWidth e) /\
  Int.in_range (cellWidth e - starsWidth e) /\
  Int.in_range (shifted e x).

(** 5% of a width, and the left margin of the interactive zone, as exact
    rational numbers. *)
Definition fivePercent (w : Z) : Q := (0.05 * inject_Z w)%Q.

Definition leftVoid (e : StarEditor.t) : Q :=
  if Qlt_le_dec (fivePercent (starsWidth e)) (inject_Z (xOffset e))
  then (- fivePercent (starsWidth e))%Q
  else 0%Q.

(** The stored counts are ratings. *)
Definition valid (e : StarEditor.t) : Prop :=
  StarRating.kMinStarCount <= displayed e <= maxStars e /\
  StarRating.kMinStarCount <= m_starCount e <= maxStars e.

(** The answer of the selection model, when the editor has a view and the
    view has a selection model. *)
Definition queriedSelection (e : StarEditor.t) : option bool :=
  match m_pTableView e with
  | Some view =>
      match selectionModel view with
      | Some model => Some (isSelected model (m_index e))
      | None => None
      end
  | None => None
  end.

(** An editor whose integers are widths: the stars are at least one pixel
    wide each, and the cell has a width. *)
Definition ready (e : StarEditor.t) : Prop :=
  1 <= maxStars e <= starsWidth e /\ starsWidth e <= Int.max /\
  0 <= cellWidth e <= Int.max.

(** An event the windowing system can deliver: a pointer position not
    further left than [- 2 ^ 30], a widget with a width. *)
Definition deliverable (ev : event) : Prop :=
  match ev with
  | MouseMove m => - 2 ^ 30 <= ev_x m <= Int.max
  | Paint bounds => 0 <= rect_width bounds <= Int.max
  | Leave | MouseRelease _ => True
  end.

(** Comparison of two positive binary64 numbers in canonical form. *)
Definition finite_cmp (m1 : positive) (e1 : Z) (m2 : positive) (e2 : Z)
    : comparison :=
  match e1 ?= e2 with
  | Lt => Lt
  | Gt => Gt
  | Eq => Pos.compare_cont Eq m1 m2
  end.

(** ** Sample editors *)

Definition plainPalette : QPalette :=
  fun cg role =>
    match cg, role with
    | Normal, Text => 0x000000
    | Normal, HighlightedText => 0xffffff
    | Disabled, Text => 0x808080
    | Disabled, HighlightedText => 0xc0c0c0
    | Inactive, Text => 0x202020
    | Inactive, HighlightedText => 0xe0e0e0
    end.

Definition sampleOption (width : Z) (flags : State) : QStyleOptionViewItem :=
  {| rect := {| rect_x := 0; rect_y := 0;
                rect_width := width; rect_height := 20 |};
     state := flags;
     palette := plainPalette |}.

Definition sampleRating (width maxStarCount : Z) : StarRating.t :=
  {| StarRating.starCount := StarRating.kMinStarCount;
     StarRating.maxStarCount := maxStarCount;
     StarRating.sizeHint := {| size_width := width; size_height := 15 |} |}.

(** An editor without a hosting view, in a cell [cell] pixels wide, for
    [maxStarCount] stars drawn over [stars] pixels. *)
Definition sampleEditor (cell stars maxStarCount : Z) : StarEditor.t :=
  create None {| row := 0; column := 0 |}
         (sampleOption cell State_Enabled)
         (sampleRating stars maxStarCount).

(** A view whose selection model selects nothing. *)
Definition emptySelection : QTableView :=
  {| style := Some 1;
     selectionModel := Some {| isSelected := fun _ => false |} |}.

(** An editor opened on a selected cell of [emptySelection]'s view: the
    option it was created with carries [State_Selected]. *)
Definition deselectedEditor : StarEditor.t :=
  create (Some emptySelection) {| row := 3; column := 7 |}
         (sampleOption 100 (Z.lor State_Enabled State_Selected))
         (sampleRating 75 5).

(** The [editingFinished] signals among the effects of a run, and the
    pointer releases among its events. *)
Definition isFinished (f : effect) : bool :=
  match f with
  | EditingFinished => true
  | _ => false
  end.

Definition isRelease (ev : event) : bool :=
  match ev with
  | MouseRelease _ => true
  | _ => false
  end.

(** ** Tactics *)

Ltac q2z :=
  unfold fivePercent, Qlt, Qle, Qopp, Qmult, inject_Z in *;
  cbn [Qnum Qden] in *.

Ltac zbool :=
  repeat match goal with
         | |- context [?a <? ?b] => destruct (Z.ltb_spec a b)
         | |- context [?a <=? ?b] => destruct (Z.leb_spec a b)
         | |- context [?a =? ?b] => destruct (Z.eqb_spec a b)
         end;
  cbn [orb andb negb bind].

Ltac domain :=
  unfold in_domain, shifted, xOffset, cellWidth, starsWidth, maxStars,
    Int.in_range, Int.min, Int.max in *;
  simpl in *; lia.

(** * Binary64 arithmetic on [int] operands

    The editor compares [int] positions with 5% of an [int] width, computed
    in [double].  The lemmas of this part show that, on [int] operands,
    these comparisons agree with the comparisons of the exact rational
    numbers: the rounding error of the product is too small to move it
    across an integer, and a product that is an integer in exact arithmetic
    is rounded to that integer. *)

(** The literal is the correctly rounded quotient 5 / 100, and a valid
    binary64 number. *)
Example lit_0_05_nearest :
  SFdiv Double.prec Double.emax (Double.of_int 5) (Double.of_int 100) =
  Double.lit_0_05 /\
  valid_binary Double.prec Double.emax Double.lit_0_05 = true.
Proof. split; vm_compute; reflexivity. Qed.

(** 20 times the literal exceeds 1 by 8 units of 2^-57: the relative error
    of the literal is 2^-54. *)
Example lit_0_05_error : 20 * 7205759403792794 = 2 ^ 57 + 8.
Proof. reflexivity. Qed.

(** ** Number of bits and shifts *)

Lemma digits2_pos_size p : digits2_pos p = Pos.size p.
Proof. induction p; simpl; congruence. Qed.

Lemma digits2_pos_bounds p :
  2 ^ (Zpos (digits2_pos p) - 1) <= Zpos p < 2 ^ Zpos (digits2_pos p).
Proof.
  rewrite digits2_pos_size. split.
  - pose proof (Pos.size_le p) as H.
    assert (Hz : 2 ^ Zpos (Pos.size p) <= 2 * Zpos p).
    { rewrite <- Pos2Z.inj_pow. change (2 * Zpos p) with (Zpos p~0). exact H. }
    replace (Zpos (Pos.size p)) with (Z.succ (Zpos (Pos.size p) - 1)) in Hz by lia.
    rewrite Z.pow_succ_r in Hz by lia. lia.
  - pose proof (Pos.size_gt p) as H.
    rewrite <- Pos2Z.inj_pow. exact H.
Qed.

Lemma digits2_pos_unique p d :
  2 ^ (d - 1) <= Zpos p < 2 ^ d -> Zpos (digits2_pos p) = d.
Proof.
  intros [Hl Hu]. pose proof (digits2_pos_bounds p) as [Hl' Hu'].
  set (D := Zpos (digits2_pos p)) in *.
  assert (0 < d).
  { destruct (Z.ltb_spec 0 d); [assumption|].
    exfalso. destruct (Z.eq_dec d 0) as [->|]; [simpl in Hu; lia|].
    rewrite Z.pow_neg_r in Hu by lia. lia. }
  assert (D - 1 < d).
  { apply (Z.pow_lt_mono_r_iff 2); try lia. }
  assert (d - 1 < D).
  { apply (Z.pow_lt_mono_r_iff 2); try lia. }
  lia.
Qed.

Lemma iter_xO_mul m k : Zpos (Pos.iter xO m k) = Zpos m * 2 ^ Zpos k.
Proof.
  induction k using Pos.peano_ind.
  - simpl. lia.
  - rewrite Pos.iter_succ, Pos2Z.inj_succ, Z.pow_succ_r by lia.
    rewrite Pos2Z.inj_xO, IHk. lia.
Qed.

Lemma iter_pos_nat {A} (f : A -> A) p a :
  SpecFloat.iter_pos f p a = Nat.iter (Pos.to_nat p) f a.
Proof.
  revert a. induction p; intros a; cbn [SpecFloat.iter_pos].
  - rewrite !IHp, Pos2Nat.inj_xI.
    rewrite <- Nat.iter_add, <- Nat.iter_succ_r. f_equal. lia.
  - rewrite !IHp, Pos2Nat.inj_xO. rewrite <- Nat.iter_add. f_equal. lia.
  - reflexivity.
Qed.

Lemma shr_1_nonneg m r s :
  0 <= m ->
  shr_1 {| shr_m := m; shr_r := r; shr_s := s |} =
  {| shr_m := m / 2; shr_r := Z.odd m; shr_s := r || s |}.
Proof.
  intros Hm. destruct m as [|p|p]; [reflexivity| |lia].
  destruct p; simpl.
  - f_equal. rewrite Pos2Z.inj_xI. apply (Z.div_unique _ _ _ 1); lia.
  - f_equal. rewrite Pos2Z.inj_xO. apply (Z.div_unique _ _ _ 0); lia.
  - reflexivity.
Qed.

Lemma iter_shr_1 k m :
  0 <= m ->
  let mrs := Nat.iter (S k) shr_1 {| shr_m := m; shr_r := false; shr_s := false |} in
  shr_m mrs = m / 2 ^ Z.of_nat (S k) /\ shr_r mrs = Z.odd (m / 2 ^ Z.of_nat k).
Proof.
  intros Hm. cbv zeta.
  assert (G : forall j, exists r s,
    Nat.iter j shr_1 {| shr_m := m; shr_r := false; shr_s := false |} =
    {| shr_m := m / 2 ^ Z.of_nat j; shr_r := r; shr_s := s |}).
  { induction j as [|j [r [s IH]]].
    - exists false, false. simpl. now rewrite Z.div_1_r.
    - exists (Z.odd (m / 2 ^ Z.of_nat j)), (r || s).
      rewrite Nat.iter_succ, IH, shr_1_nonneg by (apply Z.div_pos; lia).
      f_equal. rewrite Nat2Z.inj_succ, Z.pow_succ_r, Z.div_div by lia.
      f_equal; lia. }
  destruct (G k) as [r [s E]].
  rewrite Nat.iter_succ, E, shr_1_nonneg by (apply Z.div_pos; lia).
  simpl shr_m; simpl shr_r. split; [|reflexivity].
  rewrite Nat2Z.inj_succ, Z.pow_succ_r, Z.div_div by lia. f_equal; lia.
Qed.

Lemma fexp_normal e : -1021 <= e -> fexp 53 1024 e = e - 53.
Proof. intros H. unfold fexp, emin. lia. Qed.

Lemma shr_fexp_canonical m e :
  Zpos (digits2_pos m) = 53 -> -1074 <= e ->
  shr_fexp 53 1024 (Zpos m) e loc_Exact =
  ({| shr_m := Zpos m; shr_r := false; shr_s := false |}, e).
Proof.
  intros Hd He. unfold shr_fexp. cbn [Zdigits2 shr_record_of_loc].
  rewrite Hd, fexp_normal by lia.
  replace (53 + e - 53 - e) with 0 by lia. reflexivity.
Qed.

Lemma binary_round_aux_canonical s m e :
  Zpos (digits2_pos m) = 53 -> -1074 <= e <= 971 ->
  binary_round_aux 53 1024 s (Zpos m) e loc_Exact = S754_finite s m e.
Proof.
  intros Hd He. unfold binary_round_aux.
  rewrite shr_fexp_canonical by lia.
  cbn [shr_m loc_of_shr_record round_nearest_even].
  rewrite shr_fexp_canonical by lia. cbn [shr_m].
  destruct (Z.leb_spec e (1024 - 53)); [reflexivity|lia].
Qed.

Lemma shr_fexp_shift P e n :
  Zpos (digits2_pos P) = 53 + n -> 0 < n -> -1074 <= e + n ->
  exists r s,
    shr_fexp 53 1024 (Zpos P) e loc_Exact =
    ({| shr_m := Zpos P / 2 ^ n; shr_r := r; shr_s := s |}, e + n) /\
    r = Z.odd (Zpos P / 2 ^ (n - 1)).
Proof.
  intros Hd Hn He. unfold shr_fexp. cbn [Zdigits2 shr_record_of_loc].
  rewrite Hd, fexp_normal by lia.
  replace (53 + n + e - 53 - e) with n by lia.
  destruct n as [|pn|pn]; try lia. cbn [shr].
  rewrite iter_pos_nat.
  destruct (Pos2Nat.is_succ pn) as [k Hk]. rewrite Hk.
  pose proof (iter_shr_1 k (Zpos P) ltac:(lia)) as [Hm Hr]. cbv zeta in Hm, Hr.
  assert (Ek : Z.of_nat (S k) = Zpos pn) by (rewrite <- Hk; apply positive_nat_Z).
  rewrite Ek in Hm.
  replace (Z.of_nat k) with (Zpos pn - 1) in Hr by lia.
  destruct (Nat.iter (S k) shr_1 _) as [m' r' s']. cbn [shr_m shr_r] in Hm, Hr.
  exists r', s'. subst m'. split; [reflexivity|assumption].
Qed.

Lemma binary_round_aux_shift sx P e n :
  Zpos (digits2_pos P) = 53 + n -> 0 < n -> -1074 <= e + n <= 970 ->
  exists m' e',
    binary_round_aux 53 1024 sx (Zpos P) e loc_Exact = S754_finite sx m' e' /\
    Zpos (digits2_pos m') = 53 /\
    e + n <= e' /\
    (Zpos m' * 2 ^ (e' - (e + n)) = Zpos P / 2 ^ n \/
     Zpos m' * 2 ^ (e' - (e + n)) = Zpos P / 2 ^ n + 1) /\
    (Z.odd (Zpos P / 2 ^ (n - 1)) = false ->
     Zpos m' * 2 ^ (e' - (e + n)) = Zpos P / 2 ^ n).
Proof.
  intros Hd Hn He.
  destruct (shr_fexp_shift P e n Hd Hn ltac:(lia)) as [r [s [E Hr]]].
  unfold binary_round_aux. rewrite E. cbn [shr_m].
  pose proof (digits2_pos_bounds P) as [Hl Hu]. rewrite Hd in Hl, Hu.
  set (q := Zpos P / 2 ^ n) in *.
  assert (Hq : 2 ^ 52 <= q < 2 ^ 53).
  { subst q. split.
    - apply Z.div_le_lower_bound; [lia|].
      rewrite <- Z.pow_add_r by lia. replace (n + 52) with (53 + n - 1) by lia. exact Hl.
    - apply Z.div_lt_upper_bound; [lia|].
      rewrite <- Z.pow_add_r by lia. replace (n + 53) with (53 + n) by lia. exact Hu. }
  set (q' := round_nearest_even q _).
  assert (Hq' : (q' = q \/ q' = q + 1) /\ (r = false -> q' = q)).
  { subst q'. destruct r, s; cbn [loc_of_shr_record round_nearest_even];
      try destruct (Z.even q); auto; split; auto; discriminate. }
  destruct Hq' as [Hq1 Hq2].
  destruct (Z.eq_dec q' (2 ^ 53)) as [Ht|Ht].
  - (* the mantissa was rounded up to the next binade *)
    rewrite Ht. change (2 ^ 53) with (Zpos (2 ^ 53)).
    unfold shr_fexp. cbn [Zdigits2 shr_record_of_loc].
    change (Zpos (digits2_pos (2 ^ 53))) with 54.
    rewrite fexp_normal by lia.
    replace (54 + (e + n) - 53 - (e + n)) with 1 by lia.
    cbn [shr SpecFloat.iter_pos shr_1 shr_m].
    destruct (Z.leb_spec (e + n + 1) (1024 - 53)); [|lia].
    exists (2 ^ 52)%positive, (e + n + 1).
    split; [reflexivity|]. split; [reflexivity|]. split; [lia|].
    replace (e + n + 1 - (e + n)) with 1 by lia.
    change (Zpos (2 ^ 52) * 2 ^ 1) with (2 ^ 53). rewrite <- Ht.
    split; [lia|]. intros Hodd. apply Hq2. congruence.
  - assert (Hq3 : 2 ^ 52 <= q' < 2 ^ 53) by lia.
    destruct q' as [|m'|m'] eqn:Eq'; try lia.
    assert (Hd' : Zpos (digits2_pos m') = 53) by (apply digits2_pos_unique; exact Hq3).
    rewrite shr_fexp_canonical by lia. cbn [shr_m].
    destruct (Z.leb_spec (e + n) (1024 - 53)); [|lia].
    exists m', (e + n). split; [reflexivity|]. split; [assumption|]. split; [lia|].
    rewrite Z.sub_diag. change (2 ^ 0) with 1. rewrite Z.mul_1_r.
    split; [lia|]. intros Hodd. apply Hq2. congruence.
Qed.

Lemma of_int_magnitude n d :
  2 ^ (d - 1) <= n < 2 ^ d -> 0 < d < 53 ->
  exists m,
    Zpos m = n * 2 ^ (53 - d) /\ Zpos (digits2_pos m) = 53 /\
    Double.of_int n = S754_finite false m (d - 53) /\
    Double.of_int (- n) = S754_finite true m (d - 53).
Proof.
  intros Hn Hd.
  assert (0 < 2 ^ (d - 1)) by (apply Z.pow_pos_nonneg; lia).
  destruct n as [|p|p]; try lia.
  pose proof (digits2_pos_unique p d Hn) as Hp.
  destruct (53 - d) as [|k|k] eqn:Ek; try lia.
  exists (Pos.iter xO p k).
  assert (Hm : Zpos (Pos.iter xO p k) = Zpos p * 2 ^ Zpos k) by apply iter_xO_mul.
  assert (Hdm : Zpos (digits2_pos (Pos.iter xO p k)) = 53).
  { apply digits2_pos_unique. rewrite Hm.
    assert (E1 : 2 ^ (53 - 1) = 2 ^ (d - 1) * 2 ^ Zpos k)
      by (rewrite <- Z.pow_add_r by lia; f_equal; lia).
    assert (E2 : 2 ^ 53 = 2 ^ d * 2 ^ Zpos k)
      by (rewrite <- Z.pow_add_r by lia; f_equal; lia).
    rewrite E1, E2.
    assert (0 < 2 ^ Zpos k) by (apply Z.pow_pos_nonneg; lia).
    split; [apply Z.mul_le_mono_nonneg_r|apply Z.mul_lt_mono_pos_r]; lia. }
  split; [assumption|]. split; [assumption|].
  assert (E : forall s, binary_round 53 1024 s p 0 =
                        S754_finite s (Pos.iter xO p k) (d - 53)).
  { intros s. unfold binary_round, shl_align.
    rewrite Hp, fexp_normal by lia.
    replace (d + 0 - 53 - 0) with (Zneg k) by lia.
    replace (d + 0 - 53) with (d - 53) by lia.
    apply binary_round_aux_canonical; [assumption|lia]. }
  split; apply E.
Qed.

Lemma int_digits n :
  1 <= n <= 2 ^ 31 -> exists d, 2 ^ (d - 1) <= n < 2 ^ d /\ 0 < d <= 32.
Proof.
  intros Hn. exists (Z.log2 n + 1).
  pose proof (Z.log2_spec n ltac:(lia)) as Hs.
  replace (Z.log2 n + 1 - 1) with (Z.log2 n) by lia.
  replace (Z.log2 n + 1) with (Z.succ (Z.log2 n)) by lia.
  split; [exact Hs|].
  pose proof (Z.log2_nonneg n).
  pose proof (Z.log2_le_mono n (2 ^ 31) ltac:(lia)) as Hl.
  rewrite Z.log2_pow2 in Hl by lia. lia.
Qed.

Lemma binade_lt m1 m2 A B :
  m1 < 2 ^ 53 -> 2 ^ 52 <= m2 -> 0 < A -> 0 < B ->
  m1 * A < m2 * (A * 2 * B).
Proof.
  intros H1 H2 HA HB.
  assert (m1 * A < 2 ^ 53 * A) by (apply Z.mul_lt_mono_pos_r; lia).
  assert (2 ^ 52 * (A * 2) <= m2 * (A * 2))
    by (apply Z.mul_le_mono_nonneg_r; lia).
  assert (m2 * (A * 2) * 1 <= m2 * (A * 2) * B)
    by (apply Z.mul_le_mono_nonneg_l; lia).
  lia.
Qed.

Lemma canonical_compare m1 e1 m2 e2 c :
  Zpos (digits2_pos m1) = 53 -> Zpos (digits2_pos m2) = 53 ->
  c <= e1 -> c <= e2 ->
  match e1 ?= e2 with
  | Lt => Lt
  | Gt => Gt
  | Eq => Pos.compare_cont Eq m1 m2
  end = (Zpos m1 * 2 ^ (e1 - c) ?= Zpos m2 * 2 ^ (e2 - c)).
Proof.
  intros H1 H2 Hc1 Hc2.
  pose proof (digits2_pos_bounds m1) as B1. rewrite H1 in B1.
  pose proof (digits2_pos_bounds m2) as B2. rewrite H2 in B2.
  change (2 ^ (53 - 1)) with (2 ^ 52) in *.
  destruct (Z.compare_spec e1 e2) as [E|E|E].
  - subst e2.
    assert (0 < 2 ^ (e1 - c)) by (apply Z.pow_pos_nonneg; lia).
    change (Pos.compare_cont Eq m1 m2) with (m1 ?= m2)%positive.
    destruct (Pos.compare_spec m1 m2) as [C|C|C]; symmetry.
    + subst m2. apply Z.compare_refl.
    + apply Z.compare_lt_iff, Z.mul_lt_mono_pos_r; lia.
    + apply Z.compare_gt_iff, Z.mul_lt_mono_pos_r; lia.
  - symmetry. apply Z.compare_lt_iff.
    replace (e2 - c) with (e1 - c + 1 + (e2 - e1 - 1)) by lia.
    rewrite !Z.pow_add_r by lia. change (2 ^ 1) with 2.
    apply binade_lt; try lia; apply Z.pow_pos_nonneg; lia.
  - symmetry. apply Z.compare_gt_iff.
    replace (e1 - c) with (e2 - c + 1 + (e1 - e2 - 1)) by lia.
    rewrite !Z.pow_add_r by lia. change (2 ^ 1) with 2.
    apply binade_lt; try lia; apply Z.pow_pos_nonneg; lia.
Qed.

Lemma five_percent_core x sw T K H S P M :
  1 <= x <= 2 ^ 31 -> 1 <= sw -> 2 ^ 21 <= T ->
  2 ^ 52 <= sw * T < 2 ^ 53 ->
  P = sw * T * 7205759403792794 ->
  0 < H -> K = 2 * H ->
  K * 2 ^ 52 <= P < K * 2 ^ 53 ->
  S * K = T * 2 ^ 57 ->
  (M = P / K \/ M = P / K + 1) ->
  (Z.odd (P / H) = false -> M = P / K) ->
  (x * S ?= M) = (20 * x ?= sw).
Proof.
  intros Hx Hsw HT HA HP HH HK HPK HS HM Hodd.
  set (u := x * T). set (w := sw * T) in *.
  assert (Hu : x * S * K = u * 2 ^ 57) by (subst u; rewrite <- Z.mul_assoc, HS; ring).
  assert (HuT : u <= 2 ^ 31 * T) by (subst u; apply Z.mul_le_mono_nonneg_r; lia).
  assert (HP20 : 20 * P = w * (2 ^ 57 + 8)) by (subst P w; ring).
  assert (HKb : K <= 2 ^ 54) by lia.
  assert (HK0 : 0 < K) by lia.
  destruct (Z.compare_spec (20 * x) sw) as [E|E|E].
  - (* the product is x, up to a relative error of 2^-54 *)
    assert (Hw : w = 20 * u) by (subst w u sw; ring).
    assert (HPu : P = x * S * K + 8 * u) by lia.
    assert (Hr : 0 <= 8 * u < H) by lia.
    assert (Hq : P / K = x * S).
    { symmetry. apply (Z.div_unique _ _ _ (8 * u)); lia. }
    assert (Hh : P / H = 2 * (x * S)).
    { symmetry. apply (Z.div_unique _ _ _ (8 * u)); [lia|]. subst K. lia. }
    rewrite Hodd, Hq; [apply Z.compare_refl|].
    rewrite Hh, Z.odd_mul. reflexivity.
  - assert (Hw : 20 * u + T <= w).
    { subst w u. replace (20 * (x * T) + T) with ((20 * x + 1) * T) by ring.
      apply Z.mul_le_mono_nonneg_r; lia. }
    assert (Hq : x * S + 1 <= P / K).
    { apply Z.div_le_lower_bound; [lia|]. lia. }
    apply Z.compare_lt_iff. lia.
  - assert (Hw : w <= 20 * u - T).
    { subst w u. replace (20 * (x * T) - T) with ((20 * x - 1) * T) by ring.
      apply Z.mul_le_mono_nonneg_r; lia. }
    assert (Hq : P / K < x * S - 1).
    { apply Z.div_lt_upper_bound; [lia|]. lia. }
    apply Z.compare_gt_iff. lia.
Qed.

Lemma binary_round_aux_sign sx m e l :
  binary_round_aux 53 1024 sx m e l =
  match binary_round_aux 53 1024 false m e l with
  | S754_zero _ => S754_zero sx
  | S754_infinity _ => S754_infinity sx
  | S754_nan => S754_nan
  | S754_finite _ m' e' => S754_finite sx m' e'
  end.
Proof.
  unfold binary_round_aux.
  destruct (shr_fexp 53 1024 m e l) as [mrs' e'].
  destruct (shr_fexp 53 1024 _ e' loc_Exact) as [mrs'' e''].
  destruct (shr_m mrs''); try reflexivity.
  destruct (e'' <=? 1024 - 53); reflexivity.
Qed.

Lemma five_percent_magnitude a b :
  1 <= a <= 2 ^ 31 -> 1 <= b <= 2 ^ 31 ->
  exists ma ea mb eb mv ev,
    Double.of_int a = S754_finite false ma ea /\
    Double.of_int (- a) = S754_finite true ma ea /\
    Double.of_int b = S754_finite false mb eb /\
    Double.of_int (- b) = S754_finite true mb eb /\
    (forall sb s,
        Double.mul (S754_finite sb mb eb)
                   (S754_finite s 7205759403792794 (-57)) =
        S754_finite (xorb sb s) mv ev) /\
    finite_cmp ma ea mv ev = (20 * a ?= b).
Proof.
  intros Ha Hb.
  destruct (int_digits a Ha) as [da [Hda Hda']].
  destruct (int_digits b Hb) as [db [Hdb Hdb']].
  destruct (of_int_magnitude a da Hda ltac:(lia)) as [ma [Hma [Dma [Ea Ea']]]].
  destruct (of_int_magnitude b db Hdb ltac:(lia)) as [mb [Hmb [Dmb [Eb Eb']]]].
  set (T := 2 ^ (53 - db)) in *.
  assert (HT : 2 ^ 21 <= T) by (apply Z.pow_le_mono_r; lia).
  pose proof (digits2_pos_bounds mb) as Bmb. rewrite Dmb, Hmb in Bmb.
  change (2 ^ (53 - 1)) with (2 ^ 52) in Bmb.
  set (P := (mb * 7205759403792794)%positive).
  assert (HP : Zpos P = b * T * 7205759403792794)
    by (subst P; rewrite Pos2Z.inj_mul, Hmb; reflexivity).
  assert (HPb : 2 ^ 104 <= Zpos P < 2 ^ 106) by lia.
  pose proof (digits2_pos_bounds P) as BP.
  set (D := Zpos (digits2_pos P)) in *.
  assert (HD : 105 <= D <= 106).
  { split.
    - assert (104 < D) by (apply (Z.pow_lt_mono_r_iff 2); lia). lia.
    - assert (D - 1 < 106) by (apply (Z.pow_lt_mono_r_iff 2); lia). lia. }
  set (n := D - 53).
  destruct (binary_round_aux_shift false P (db - 53 + -57) n ltac:(fold D; lia)
              ltac:(lia) ltac:(lia)) as [mv [ev [Ev [Dmv [Hev [HM Hodd]]]]]].
  exists ma, (da - 53), mb, (db - 53), mv, ev.
  repeat split; try assumption.
  - intros sb s. unfold Double.mul, SFmul. fold P.
    rewrite binary_round_aux_sign. fold Double.prec Double.emax.
    unfold Double.prec, Double.emax. rewrite Ev. reflexivity.
  - set (c := db - 53 + -57 + n) in *.
    unfold finite_cmp.
    rewrite (canonical_compare ma (da - 53) mv ev (c - 53)) by lia.
    replace (ev - (c - 53)) with (ev - c + 53) by lia.
    rewrite Z.pow_add_r, Z.mul_assoc by lia.
    set (M := Zpos mv * 2 ^ (ev - c)) in *.
    rewrite Hma.
    replace (a * 2 ^ (53 - da) * 2 ^ (da - 53 - (c - 53)))
      with (a * 2 ^ (- c) * 2 ^ 53).
    2:{ rewrite <- !Z.mul_assoc. f_equal. rewrite <- !Z.pow_add_r by lia.
        f_equal. lia. }
    assert (C53 : forall u v, (u * 2 ^ 53 ?= v * 2 ^ 53) = (u ?= v)).
    { intros u v. destruct (Z.compare_spec u v) as [E|E|E].
      - subst. apply Z.compare_refl.
      - apply Z.compare_lt_iff. lia.
      - apply Z.compare_gt_iff. lia. }
    rewrite C53.
    assert (H1 : 0 < 2 ^ (n - 1)) by (apply Z.pow_pos_nonneg; lia).
    assert (H2 : 2 ^ n = 2 * 2 ^ (n - 1)).
    { replace n with (Z.succ (n - 1)) at 1 by lia. apply Z.pow_succ_r. lia. }
    assert (H3 : 2 ^ n * 2 ^ 52 <= Zpos P < 2 ^ n * 2 ^ 53).
    { rewrite <- !Z.pow_add_r by lia.
      replace (n + 52) with (D - 1) by lia. replace (n + 53) with D by lia.
      exact BP. }
    assert (H4 : 2 ^ (- c) * 2 ^ n = T * 2 ^ 57).
    { unfold T. rewrite <- !Z.pow_add_r by lia. f_equal. lia. }
    apply (five_percent_core a b T (2 ^ n) (2 ^ (n - 1)) (2 ^ (- c)) (Zpos P) M);
      assumption || lia.
Qed.

Lemma compare_of_int_5pct x sw s :
  Int.in_range x -> Int.in_range sw ->
  SFcompare (Double.of_int x)
            (Double.mul (Double.of_int sw)
                        (S754_finite s 7205759403792794 (-57))) =
  Some (20 * x ?= (if s then - sw else sw)).
Proof.
  unfold Int.in_range, Int.min, Int.max. intros Hx Hsw.
  set (a := if x =? 0 then 1 else Z.abs x).
  set (b := if sw =? 0 then 1 else Z.abs sw).
  assert (Ha : 1 <= a <= 2 ^ 31) by (subst a; destruct (Z.eqb_spec x 0); lia).
  assert (Hb : 1 <= b <= 2 ^ 31) by (subst b; destruct (Z.eqb_spec sw 0); lia).
  destruct (five_percent_magnitude a b Ha Hb)
    as (ma & ea & mb & eb & mv & ev & Ea & Ea' & Eb & Eb' & Emul & Hcmp).
  unfold finite_cmp in Hcmp.
  assert (Hx3 : x = 0 \/ x = a \/ x = - a)
    by (subst a; destruct (Z.eqb_spec x 0); lia).
  assert (Hs3 : sw = 0 \/ sw = b \/ sw = - b)
    by (subst b; destruct (Z.eqb_spec sw 0); lia).
  assert (Hopp : (20 * - a ?= - b) = CompOpp (20 * a ?= b)).
  { replace (20 * - a) with (- (20 * a)) by ring.
    rewrite Z.compare_opp. apply Z.compare_antisym. }
  clearbody a b.
  destruct Hs3 as [-> | [-> | ->] ].
  - change (Double.mul (Double.of_int 0) _) with (S754_zero (xorb false s)).
    replace (if s then - 0 else 0) with 0 by (destruct s; reflexivity).
    destruct Hx3 as [-> | [-> | ->] ].
    + reflexivity.
    + rewrite Ea. cbn [SFcompare]. f_equal. symmetry. apply Z.compare_gt_iff. lia.
    + rewrite Ea'. cbn [SFcompare]. f_equal. symmetry. apply Z.compare_lt_iff. lia.
  - rewrite Eb, Emul. cbn [xorb].
    destruct Hx3 as [-> | [-> | ->] ].
    + change (Double.of_int 0) with (S754_zero false). cbn [SFcompare].
      destruct s; f_equal; symmetry;
        [apply Z.compare_gt_iff|apply Z.compare_lt_iff]; lia.
    + rewrite Ea. cbn [SFcompare].
      destruct s; f_equal; [symmetry; apply Z.compare_gt_iff; lia|exact Hcmp].
    + rewrite Ea'. cbn [SFcompare].
      destruct s; f_equal; [|symmetry; apply Z.compare_lt_iff; lia].
      rewrite Hopp, <- Hcmp. destruct (ea ?= ev); reflexivity.
  - rewrite Eb', Emul. cbn [xorb negb]. rewrite Z.opp_involutive.
    destruct Hx3 as [-> | [-> | ->] ].
    + change (Double.of_int 0) with (S754_zero false). cbn [SFcompare].
      destruct s; f_equal; symmetry;
        [apply Z.compare_lt_iff|apply Z.compare_gt_iff]; lia.
    + rewrite Ea. cbn [SFcompare].
      destruct s; cbn [negb]; f_equal;
        [exact Hcmp|symmetry; apply Z.compare_gt_iff; lia].
    + rewrite Ea'. cbn [SFcompare].
      destruct s; cbn [negb]; f_equal; [symmetry; apply Z.compare_lt_iff; lia|].
      rewrite Hopp, <- Hcmp. destruct (ea ?= ev); reflexivity.
Qed.

(** ** The comparisons of [starAtPosition] *)

Lemma SFcompare_swap f1 f2 :
  SFcompare f2 f1 = option_map CompOpp (SFcompare f1 f2).
Proof.
  destruct f1 as [s1|s1| |s1 m1 e1], f2 as [s2|s2| |s2 m2 e2];
    try reflexivity; try (destruct s1; reflexivity);
    try (destruct s2; reflexivity);
    try (destruct s1, s2; reflexivity).
  cbn [SFcompare option_map]. rewrite (Z.compare_antisym e1 e2).
  change (Pos.compare_cont Eq m2 m1) with (Pos.compare_cont (CompOpp Eq) m2 m1).
  rewrite <- (Pos.compare_cont_antisym m1 m2 Eq).
  destruct s1, s2; try reflexivity;
    destruct (e1 ?= e2); reflexivity.
Qed.

Lemma ltb_of_compare a b :
  match a ?= b with Lt => true | _ => false end = (a <? b).
Proof. reflexivity. Qed.

Lemma ltb_five_percent x w :
  Int.in_range x -> Int.in_range w ->
  Double.ltb (Double.of_int x)
             (Double.mul (Double.of_int w) Double.lit_0_05) = (20 * x <? w).
Proof.
  intros Hx Hw. unfold Double.ltb, SFltb, Double.lit_0_05.
  rewrite compare_of_int_5pct by assumption. apply ltb_of_compare.
Qed.

Lemma ltb_minus_five_percent x w :
  Int.in_range x -> Int.in_range w ->
  Double.ltb (Double.of_int x)
             (Double.mul (Double.of_int w) (Double.neg Double.lit_0_05)) =
  (20 * x <? - w).
Proof.
  intros Hx Hw. unfold Double.ltb, SFltb, Double.lit_0_05, Double.neg.
  cbn [SFopp negb].
  rewrite compare_of_int_5pct by assumption. apply ltb_of_compare.
Qed.

Lemma five_percent_ltb x w :
  Int.in_range x -> Int.in_range w ->
  Double.ltb (Double.mul (Double.of_int w) Double.lit_0_05)
             (Double.of_int x) = (w <? 20 * x).
Proof.
  intros Hx Hw. unfold Double.ltb, SFltb, Double.lit_0_05.
  rewrite SFcompare_swap, compare_of_int_5pct by assumption.
  cbn [option_map]. rewrite <- Z.compare_antisym. apply ltb_of_compare.
Qed.

Lemma ltb_zero x :
  Int.in_range x -> Double.ltb (Double.of_int x) (Double.of_int 0) = (x <? 0).
Proof.
  unfold Int.in_range, Int.min, Int.max. intros Hx.
  destruct (Z.eq_dec x 0) as [->|Hx0]; [reflexivity|].
  destruct (five_percent_magnitude (Z.abs x) 1 ltac:(lia) ltac:(lia))
    as (ma & ea & _ & _ & _ & _ & Ea & Ea' & _).
  destruct (Z.abs_spec x) as [[Hs E]|[Hs E]]; rewrite E in *.
  - rewrite Ea. symmetry. apply Z.ltb_ge. lia.
  - replace x with (- - x) at 1 by lia. rewrite Ea'.
    symmetry. apply Z.ltb_lt. lia.
Qed.

(** ** [starAtPosition] in exact arithmetic *)

Lemma checked_in_range z : Int.in_range z -> Int.checked z = Some z.
Proof.
  unfold Int.in_range, Int.checked, Int.in_rangeb. intros [Hl Hu].
  destruct (Z.leb_spec Int.min z); [|lia].
  destruct (Z.leb_spec z Int.max); [reflexivity|lia].
Qed.

Lemma checked_inv z r : Int.checked z = Some r -> r = z /\ Int.in_range z.
Proof.
  unfold Int.in_range, Int.checked, Int.in_rangeb.
  destruct (Z.leb_spec Int.min z); [|discriminate].
  destruct (Z.leb_spec z Int.max); [|discriminate].
  cbn [andb]. intros [= <-]. split; [reflexivity|split; assumption].
Qed.

Lemma quot2_in_range d : Int.in_range d -> Int.in_range (Z.quot d 2).
Proof.
  unfold Int.in_range, Int.min, Int.max. intros Hd.
  destruct (Z.le_ge_cases 0 d) as [H|H].
  - rewrite Z.quot_div_nonneg by lia.
    pose proof (Z.div_pos d 2 H ltac:(lia)).
    assert (d / 2 <= d) by (apply Z.div_le_upper_bound; lia). lia.
  - replace d with (- - d) by lia. rewrite Z.quot_opp_l by lia.
    rewrite Z.quot_div_nonneg by lia.
    pose proof (Z.div_pos (- d) 2 ltac:(lia) ltac:(lia)).
    assert (- d / 2 <= - d) by (apply Z.div_le_upper_bound; lia). lia.
Qed.

Lemma xOffset_in_range e :
  Int.in_range (cellWidth e - starsWidth e) -> Int.in_range (xOffset e).
Proof.
  intros H. apply quot2_in_range in H. revert H.
  unfold xOffset, Int.in_range, Int.min, Int.max. lia.
Qed.

(** On its domain, [starAtPosition] is the following function of the
    shifted position, all comparisons being exact. *)
Lemma starAtPosition_exact e x :
  in_domain e x ->
  starAtPosition e x =
  if (if starsWidth e <? 20 * xOffset e
      then 20 * shifted e x <? - starsWidth e
      else shifted e x <? 0)
     || (starsWidth e <=? shifted e x)
  then Some kInvalidStarCount
  else if 20 * shifted e x <? starsWidth e then Some 0
  else
    q <- Int.div (starsWidth e) (maxStars e) ;;
    p <- Int.div (shifted e x) q ;;
    star <- Int.add p 1 ;;
    if (star <=? 0) || (maxStars e <? star) then Some 0 else Some star.
Proof.
  intros (Hw & Hd & Hx).
  pose proof (xOffset_in_range e Hd) as Ho.
  unfold starAtPosition.
  fold (starsWidth e) (cellWidth e) (maxStars e).
  unfold Int.sub at 1. rewrite (checked_in_range _ Hd). cbn [bind].
  unfold Int.div at 1. cbn [Z.eqb].
  rewrite (checked_in_range _ (quot2_in_range _ Hd)). cbn [bind].
  fold (xOffset e).
  replace (Z.max (xOffset e) 0) with (xOffset e) by (unfold xOffset; lia).
  unfold Int.sub. fold (shifted e x).
  rewrite (checked_in_range _ Hx). cbn [bind].
  rewrite five_percent_ltb, ltb_five_percent by assumption.
  destruct (starsWidth e <? 20 * xOffset e).
  - rewrite ltb_minus_five_percent by assumption. reflexivity.
  - rewrite ltb_zero by assumption. reflexivity.
Qed.

Lemma int_div_nonneg a b :
  0 <= a -> 0 < b -> Int.in_range a -> Int.div a b = Some (a / b).
Proof.
  intros Ha Hb Hr. unfold Int.div.
  destruct (Z.eqb_spec b 0); [lia|].
  rewrite Z.quot_div_nonneg by lia. apply checked_in_range.
  pose proof (Z.div_pos a b Ha Hb).
  assert (a / b <= a) by (apply Z.div_le_upper_bound; nia).
  revert Hr. unfold Int.in_range, Int.min, Int.max. lia.
Qed.

Lemma int_div_zero a : Int.div a 0 = None.
Proof. reflexivity. Qed.

(** The stars proper: to the right of the zero zone, and on a domain where
    the width of one star is not zero, the count is the index of the star
    under the pointer, as long as it is at most [m]. *)
Lemma star_count w m X :
  Int.in_range w -> 1 <= m <= w -> 0 <= X < w ->
  (q <- Int.div w m ;;
   p <- Int.div X q ;;
   star <- Int.add p 1 ;;
   if (star <=? 0) || (m <? star) then Some 0 else Some star) =
  Some (if X / (w / m) + 1 <=? m then X / (w / m) + 1 else 0).
Proof.
  intros Hw Hm HX.
  assert (Hq : 1 <= w / m) by (apply Z.div_le_lower_bound; lia).
  rewrite int_div_nonneg by (assumption || lia). cbn [bind].
  assert (HXr : Int.in_range X)
    by (revert Hw; unfold Int.in_range, Int.min, Int.max; lia).
  rewrite int_div_nonneg by (assumption || lia). cbn [bind].
  pose proof (Z.div_pos X (w / m) ltac:(lia) ltac:(lia)) as Hp.
  assert (Hp' : X / (w / m) <= X) by (apply Z.div_le_upper_bound; nia).
  unfold Int.add. rewrite checked_in_range
    by (revert Hw; unfold Int.in_range, Int.min, Int.max; lia).
  cbn [bind]. zbool; try reflexivity; lia.
Qed.

(** * The position-to-rating mapper *)

(** C3. [starAtPosition] shifts the position left by the centering offset
    [xOffset = max((cellWidth - starsWidth) / 2, 0)] and returns the
    "no rating" sentinel exactly when the shifted position is below
    [leftVoid] or at least [starsWidth]; [leftVoid] is -5% of [starsWidth]
    when [xOffset] exceeds 5% of [starsWidth], and 0 otherwise. *)
Theorem starAtPosition_invalid_iff e x :
  in_domain e x ->
  starAtPosition e x = Some kInvalidStarCount <->
  (inject_Z (shifted e x) < leftVoid e)%Q \/ starsWidth e <= shifted e x.
Proof.
  intros Hdom. rewrite (starAtPosition_exact e x Hdom).
  destruct Hdom as (Hw & Hd & Hx).
  assert (Hvoid : (inject_Z (shifted e x) < leftVoid e)%Q <->
                  (if starsWidth e <? 20 * xOffset e
                   then 20 * shifted e x <? - starsWidth e
                   else shifted e x <? 0) = true).
  { unfold leftVoid.
    destruct (Qlt_le_dec _ _) as [Hq|Hq]; q2z;
      destruct (Z.ltb_spec (starsWidth e) (20 * xOffset e)); lia. }
  rewrite Hvoid, <- Z.leb_le, <- orb_true_iff.
  destruct (_ || _) eqn:Hout; [tauto|].
  split; [|discriminate]. intros Hr. exfalso.
  apply orb_false_iff in Hout. destruct Hout as [_ Hlt].
  apply Z.leb_gt in Hlt.
  destruct (Z.ltb_spec (20 * shifted e x) (starsWidth e)); [discriminate|].
  unfold kInvalidStarCount, StarRating.kMinStarCount in Hr.
  destruct (Int.div (starsWidth e) (maxStars e)) as [q|]; [|discriminate].
  cbn [bind] in Hr.
  destruct (Int.div (shifted e x) q) as [p|]; [|discriminate].
  cbn [bind] in Hr.
  destruct (Int.add p 1) as [star|]; [|discriminate].
  cbn [bind] in Hr. revert Hr. zbool; intros [= Hr]; lia.
Qed.

Lemma starAtPosition_invalid_iff_witness :
  starAtPosition (sampleEditor 200 100 5) 44 = Some kInvalidStarCount <->
  (inject_Z (shifted (sampleEditor 200 100 5) 44)
   < leftVoid (sampleEditor 200 100 5))%Q \/
  starsWidth (sampleEditor 200 100 5) <= shifted (sampleEditor 200 100 5) 44.
Proof. apply starAtPosition_invalid_iff. domain. Defined.

(** C4. For every shifted position [x] with [0 <= x < 0.05 * starsWidth],
    [starAtPosition] returns exactly 0. *)
Theorem starAtPosition_zero_zone e x :
  in_domain e x ->
  0 <= shifted e x ->
  (inject_Z (shifted e x) < fivePercent (starsWidth e))%Q ->
  starAtPosition e x = Some 0.
Proof.
  intros Hdom H0 H5. rewrite (starAtPosition_exact e x Hdom).
  q2z. zbool; try reflexivity; lia.
Qed.

Lemma starAtPosition_zero_zone_witness :
  starAtPosition (sampleEditor 100 100 5) 3 = Some 0.
Proof.
  apply starAtPosition_zero_zone; [domain|domain|].
  unfold fivePercent, Qlt; simpl; lia.
Defined.

(** C1, as stated, fails on the code.  With 5 stars drawn over 101 pixels
    one star is 101 / 5 = 20 pixels wide, and the last pixel, x = 100, is
    past the fifth star: 100 / 20 + 1 = 6 exceeds [maxStarCount] and the
    guard returns 0, after 5 at x = 99.  With 5 stars drawn over 2 pixels
    one star is 2 / 5 = 0 pixels wide and the count at x = 1 is a division
    by zero. *)
Lemma starAtPosition_right_edge_counterexample :
  (let e := sampleEditor 101 101 5 in
   in_domain e 100 /\
   1 <= maxStars e /\
   0 <= shifted e 100 < starsWidth e /\
   ~ (inject_Z (shifted e 100) < leftVoid e)%Q /\
   ~ (inject_Z (shifted e 100) < fivePercent (starsWidth e))%Q /\
   starAtPosition e 99 = Some 5 /\
   starAtPosition e 100 = Some 0 /\
   ~ (exists star,
         starAtPosition e 100 = Some star /\ 1 <= star <= maxStars e)) /\
  (let e := sampleEditor 2 2 5 in
   in_domain e 1 /\
   1 <= maxStars e /\
   0 <= shifted e 1 < starsWidth e /\
   ~ (inject_Z (shifted e 1) < leftVoid e)%Q /\
   ~ (inject_Z (shifted e 1) < fivePercent (starsWidth e))%Q /\
   starAtPosition e 1 = None).
Proof.
  cbv zeta. split.
  - split; [domain|]. split; [domain|]. split; [domain|].
    split; [unfold Qlt; simpl; lia|]. split; [unfold Qlt; simpl; lia|].
    split; [reflexivity|]. split; [reflexivity|].
    intros [star [E H]]. vm_compute in E. injection E as <-. lia.
  - split; [domain|]. split; [domain|]. split; [domain|].
    split; [unfold Qlt; simpl; lia|]. split; [unfold Qlt; simpl; lia|].
    reflexivity.
Qed.

(** C1, amended.  For [1 <= maxStarCount <= starsWidth] and shifted positions
    [x1 <= x2] in [[0, starsWidth)] outside the left-void and zero zones,
    [starAtPosition] returns counts [s1] and [s2]; when [x2] is below
    [maxStarCount * (starsWidth / maxStarCount)], the end of the last star,
    [1 <= s1 <= s2 <= maxStarCount]; from there on the count is 0. *)
Theorem starAtPosition_stars_monotone e x1 x2 :
  in_domain e x1 -> in_domain e x2 ->
  1 <= maxStars e <= starsWidth e ->
  0 <= shifted e x1 <= shifted e x2 ->
  shifted e x2 < starsWidth e ->
  ~ (inject_Z (shifted e x1) < fivePercent (starsWidth e))%Q ->
  exists s1 s2,
    starAtPosition e x1 = Some s1 /\ starAtPosition e x2 = Some s2 /\
    (shifted e x2 < maxStars e * (starsWidth e / maxStars e) ->
     1 <= s1 /\ s1 <= s2 /\ s2 <= maxStars e) /\
    (maxStars e * (starsWidth e / maxStars e) <= shifted e x2 -> s2 = 0).
Proof.
  intros Hd1 Hd2 Hm HX Hw H5.
  rewrite (starAtPosition_exact e x1 Hd1), (starAtPosition_exact e x2 Hd2).
  destruct Hd1 as (Hr & _ & _). q2z.
  set (X1 := shifted e x1) in *. set (X2 := shifted e x2) in *.
  set (w := starsWidth e) in *. set (m := maxStars e) in *.
  assert (Hout : forall X, X1 <= X < w ->
            (if w <? 20 * xOffset e then 20 * X <? - w else X <? 0)
            || (w <=? X) = false) by (intros X HXw; zbool; lia).
  rewrite !Hout by lia.
  replace (20 * X1 <? w) with false by (symmetry; apply Z.ltb_ge; lia).
  replace (20 * X2 <? w) with false by (symmetry; apply Z.ltb_ge; lia).
  rewrite !star_count by (assumption || lia).
  assert (Hq : 1 <= w / m) by (apply Z.div_le_lower_bound; lia).
  pose proof (Z.div_pos X1 (w / m) ltac:(lia) ltac:(lia)) as Hp1.
  pose proof (Z.div_le_mono X1 X2 (w / m) ltac:(lia) ltac:(lia)) as Hp12.
  eexists _, _. split; [reflexivity|]. split; [reflexivity|]. split.
  - intros Hlast.
    assert (X2 / (w / m) < m)
      by (apply Z.div_lt_upper_bound; [lia|]; rewrite Z.mul_comm; exact Hlast).
    zbool; lia.
  - intros Hlast.
    assert (m <= X2 / (w / m))
      by (apply Z.div_le_lower_bound; [lia|]; rewrite Z.mul_comm; exact Hlast).
    zbool; lia.
Qed.

Lemma starAtPosition_stars_monotone_witness :
  exists s1 s2,
    starAtPosition (sampleEditor 100 100 5) 25 = Some s1 /\
    starAtPosition (sampleEditor 100 100 5) 99 = Some s2 /\
    (shifted (sampleEditor 100 100 5) 99
     < maxStars (sampleEditor 100 100 5)
       * (starsWidth (sampleEditor 100 100 5)
          / maxStars (sampleEditor 100 100 5)) ->
     1 <= s1 /\ s1 <= s2 /\ s2 <= maxStars (sampleEditor 100 100 5)) /\
    (maxStars (sampleEditor 100 100 5)
     * (starsWidth (sampleEditor 100 100 5)
        / maxStars (sampleEditor 100 100 5))
     <= shifted (sampleEditor 100 100 5) 99 -> s2 = 0).
Proof.
  apply starAtPosition_stars_monotone;
    [domain|domain|domain|domain|domain|].
  unfold fivePercent, Qlt; simpl; lia.
Defined.

(** When [maxStarCount] divides [starsWidth], the stars cover the whole
    width. *)
Lemma stars_cover_width w m :
  0 < m -> (m | w) -> m * (w / m) = w.
Proof.
  intros Hm [k ->]. rewrite Z.div_mul by lia. ring.
Qed.

(** C2. With [starsWidth = 100], [maxStarCount = 5] and [xOffset = 0],
    [starAtPosition] returns 0 at 0, 0 at 3, 2 at 25, 5 at 99 and the
    "no rating" sentinel at 150. *)
Theorem starAtPosition_scenario e :
  starsWidth e = 100 -> maxStars e = 5 ->
  Int.in_range (cellWidth e - 100) -> xOffset e = 0 ->
  starAtPosition e 0 = Some 0 /\
  starAtPosition e 3 = Some 0 /\
  starAtPosition e 25 = Some 2 /\
  starAtPosition e 99 = Some 5 /\
  starAtPosition e 150 = Some kInvalidStarCount.
Proof.
  intros Hw Hm Hd Ho.
  assert (Hdom : forall x, Int.in_range x -> in_domain e x).
  { intros x Hx. unfold in_domain, shifted. rewrite Hw, Ho, Z.sub_0_r.
    unfold Int.in_range, Int.min, Int.max in *. lia. }
  assert (Hx : forall x, 0 <= x <= 150 -> Int.in_range x)
    by (unfold Int.in_range, Int.min, Int.max; lia).
  rewrite !starAtPosition_exact by (apply Hdom, Hx; lia).
  unfold shifted. rewrite Hw, Hm, Ho. repeat split; reflexivity.
Qed.

Lemma starAtPosition_scenario_witness :
  starAtPosition (sampleEditor 100 100 5) 0 = Some 0 /\
  starAtPosition (sampleEditor 100 100 5) 3 = Some 0 /\
  starAtPosition (sampleEditor 100 100 5) 25 = Some 2 /\
  starAtPosition (sampleEditor 100 100 5) 99 = Some 5 /\
  starAtPosition (sampleEditor 100 100 5) 150 = Some kInvalidStarCount.
Proof.
  apply starAtPosition_scenario; [reflexivity|reflexivity|domain|reflexivity].
Defined.

(** The same scenario, by evaluation of the binary64 model. *)
Example scenario_by_evaluation :
  map (starAtPosition (sampleEditor 100 100 5)) [0; 3; 25; 99; 150] =
  [Some 0; Some 0; Some 2; Some 5; Some kInvalidStarCount].
Proof. vm_compute. reflexivity. Qed.

(** On its domain, and with stars at least one pixel wide,
    [starAtPosition] returns a value. *)
Lemma starAtPosition_defined e x :
  in_domain e x -> 1 <= maxStars e <= starsWidth e ->
  exists star, starAtPosition e x = Some star.
Proof.
  intros Hdom Hm. rewrite (starAtPosition_exact e x Hdom).
  destruct Hdom as (Hr & _ & _).
  destruct (_ || _) eqn:Hout; [eauto|].
  destruct (Z.ltb_spec (20 * shifted e x) (starsWidth e)); [eauto|].
  rewrite star_count; [eauto|assumption|lia|].
  apply orb_false_iff in Hout. destruct Hout as [_ Hlt].
  apply Z.leb_gt in Hlt. lia.
Qed.

(** C10. Under [starsWidth >= maxStarCount >= 1] both divisors of the star
    computation, [maxStarCount] and the quotient
    [starsWidth / maxStarCount], are nonzero and [starAtPosition] returns a
    value.  The inner division being an integer division, the quotient is 0
    when the stars are narrower than [maxStarCount] pixels, and every
    evaluation that reaches the division is then undefined. *)
Theorem starAtPosition_divisors e x :
  in_domain e x ->
  (1 <= maxStars e <= starsWidth e ->
   maxStars e <> 0 /\
   (exists q, Int.div (starsWidth e) (maxStars e) = Some q /\ q <> 0) /\
   (exists star, starAtPosition e x = Some star)) /\
  (0 <= starsWidth e < maxStars e ->
   Int.div (starsWidth e) (maxStars e) = Some 0 /\
   (0 <= shifted e x < starsWidth e ->
    ~ (inject_Z (shifted e x) < fivePercent (starsWidth e))%Q ->
    starAtPosition e x = None)).
Proof.
  intros Hdom. split.
  - intros Hm. split; [lia|]. split.
    + exists (starsWidth e / maxStars e).
      split; [apply int_div_nonneg; try lia; apply Hdom|].
      assert (1 <= starsWidth e / maxStars e)
        by (apply Z.div_le_lower_bound; lia).
      lia.
    + apply starAtPosition_defined; assumption.
  - intros Hm. rewrite (starAtPosition_exact e x Hdom).
    assert (Hq : Int.div (starsWidth e) (maxStars e) = Some 0).
    { unfold Int.div. destruct (Z.eqb_spec (maxStars e) 0); [lia|].
      rewrite Z.quot_small by lia. reflexivity. }
    split; [exact Hq|]. intros HX H5. q2z. rewrite Hq. cbn [bind].
    rewrite int_div_zero.
    zbool; try reflexivity; lia.
Qed.

Lemma starAtPosition_divisors_witness :
  (1 <= maxStars (sampleEditor 2 2 5) <= starsWidth (sampleEditor 2 2 5) ->
   maxStars (sampleEditor 2 2 5) <> 0 /\
   (exists q, Int.div (starsWidth (sampleEditor 2 2 5))
                      (maxStars (sampleEditor 2 2 5)) = Some q /\ q <> 0) /\
   (exists star, starAtPosition (sampleEditor 2 2 5) 1 = Some star)) /\
  (0 <= starsWidth (sampleEditor 2 2 5) < maxStars (sampleEditor 2 2 5) ->
   Int.div (starsWidth (sampleEditor 2 2 5))
           (maxStars (sampleEditor 2 2 5)) = Some 0 /\
   (0 <= shifted (sampleEditor 2 2 5) 1 < starsWidth (sampleEditor 2 2 5) ->
    ~ (inject_Z (shifted (sampleEditor 2 2 5) 1)
       < fivePercent (starsWidth (sampleEditor 2 2 5)))%Q ->
    starAtPosition (sampleEditor 2 2 5) 1 = None)).
Proof. apply starAtPosition_divisors. domain. Defined.

(** Two stars' worth of pixels for five stars: the pointer on the second
    pixel divides by zero. *)
Example narrow_stars_undefined :
  starAtPosition (sampleEditor 2 2 5) 1 = None.
Proof. vm_compute. reflexivity. Qed.

(** The values [starAtPosition] returns: the sentinel, or a rating. *)
Lemma starAtPosition_result e x star :
  0 <= maxStars e ->
  starAtPosition e x = Some star ->
  star = kInvalidStarCount \/ StarRating.kMinStarCount <= star <= maxStars e.
Proof.
  intros Hm. unfold starAtPosition. fold (maxStars e).
  unfold kInvalidStarCount, StarRating.kMinStarCount.
  destruct (Int.sub _ _) as [d|]; [|discriminate]. cbn [bind].
  destruct (Int.div d 2) as [h|]; [|discriminate]. cbn [bind].
  destruct (Int.sub x _) as [x'|]; [|discriminate]. cbn [bind].
  destruct (_ || _); [intros [= <-]; lia|].
  destruct (Double.ltb _ _); [intros [= <-]; lia|].
  destruct (Int.div _ (maxStars e)) as [q|]; [|discriminate]. cbn [bind].
  destruct (Int.div x' q) as [p|]; [|discriminate]. cbn [bind].
  destruct (Int.add p 1) as [s|]; [|discriminate]. cbn [bind].
  zbool; intros [= <-]; lia.
Qed.

Lemma starAtPosition_lower e x star :
  starAtPosition e x = Some star -> kInvalidStarCount <= star.
Proof.
  unfold starAtPosition, kInvalidStarCount, StarRating.kMinStarCount.
  destruct (Int.sub _ _) as [d|]; [|discriminate]. cbn [bind].
  destruct (Int.div d 2) as [h|]; [|discriminate]. cbn [bind].
  destruct (Int.sub x _) as [x'|]; [|discriminate]. cbn [bind].
  destruct (_ || _); [intros [= <-]; lia|].
  destruct (Double.ltb _ _); [intros [= <-]; lia|].
  destruct (Int.div _ _) as [q|]; [|discriminate]. cbn [bind].
  destruct (Int.div x' q) as [p|]; [|discriminate]. cbn [bind].
  destruct (Int.add p 1) as [s|]; [|discriminate]. cbn [bind].
  zbool; intros [= <-]; lia.
Qed.

(** * Event handling *)

(** What [mouseMoveEvent] does with the count the mapper returns. *)
Lemma mouseMoveEvent_star event e star :
  starAtPosition e (ev_x event) = Some star ->
  mouseMoveEvent event e =
  Some (if star =? kInvalidStarCount then resetRating e
        else if star =? displayed e then (e, [])
        else (set_starRating e (StarRating.setStarCount (m_starRating e) star),
              [SetStarCount star; Update])).
Proof.
  intros Hs. pose proof (starAtPosition_lower _ _ _ Hs) as Hl.
  unfold mouseMoveEvent. rewrite Hs. cbn [bind]. fold (displayed e).
  destruct (Z.eqb_spec star kInvalidStarCount) as [E|E].
  - destruct (Z.leb_spec star kInvalidStarCount); [reflexivity|lia].
  - destruct (Z.leb_spec star kInvalidStarCount); [lia|].
    destruct (Z.eqb_spec star (displayed e)); reflexivity.
Qed.

(** C5. On a pointer move: when the mapper returns the sentinel, the
    displayed rating is reset to the last confirmed value; when it returns
    a count other than the displayed one, that count is displayed and a
    redraw is requested; when it returns the displayed count, nothing is
    requested and the editor is left as it was. *)
Theorem mouseMoveEvent_cases event e star :
  starAtPosition e (ev_x event) = Some star ->
  (star = kInvalidStarCount ->
   mouseMoveEvent event e = Some (resetRating e) /\
   displayed (fst (resetRating e)) = m_starCount e) /\
  (star <> kInvalidStarCount -> star <> displayed e ->
   exists e' fx,
     mouseMoveEvent event e = Some (e', fx) /\
     displayed e' = star /\ In Update fx) /\
  (star <> kInvalidStarCount -> star = displayed e ->
   exists fx,
     mouseMoveEvent event e = Some (e, fx) /\ ~ In Update fx).
Proof.
  intros Hs. rewrite (mouseMoveEvent_star event e star Hs).
  repeat split.
  - subst star. rewrite Z.eqb_refl. reflexivity.
  - intros Hi Hd. apply Z.eqb_neq in Hi, Hd. rewrite Hi, Hd.
    eexists _, _. split; [reflexivity|]. split; [reflexivity|].
    right. left. reflexivity.
  - intros Hi Hd. apply Z.eqb_neq in Hi. apply Z.eqb_eq in Hd.
    rewrite Hi, Hd. exists []. split; [reflexivity|]. intros [].
Qed.

Lemma mouseMoveEvent_cases_witness :
  (2 = kInvalidStarCount ->
   mouseMoveEvent {| ev_x := 25; button := NoButton |}
                  (sampleEditor 100 100 5) =
   Some (resetRating (sampleEditor 100 100 5)) /\
   displayed (fst (resetRating (sampleEditor 100 100 5))) =
   m_starCount (sampleEditor 100 100 5)) /\
  (2 <> kInvalidStarCount -> 2 <> displayed (sampleEditor 100 100 5) ->
   exists e' fx,
     mouseMoveEvent {| ev_x := 25; button := NoButton |}
                    (sampleEditor 100 100 5) = Some (e', fx) /\
     displayed e' = 2 /\ In Update fx) /\
  (2 <> kInvalidStarCount -> 2 = displayed (sampleEditor 100 100 5) ->
   exists fx,
     mouseMoveEvent {| ev_x := 25; button := NoButton |}
                    (sampleEditor 100 100 5) =
     Some (sampleEditor 100 100 5, fx) /\ ~ In Update fx).
Proof.
  apply (mouseMoveEvent_cases {| ev_x := 25; button := NoButton |}
                              (sampleEditor 100 100 5) 2).
  vm_compute. reflexivity.
Defined.

(** C6. On a pointer release, whichever the button and whatever the
    displayed rating, the editor emits [editingFinished] exactly once and
    is left unchanged. *)
Theorem mouseReleaseEvent_finishes event e :
  mouseReleaseEvent event e = (e, [EditingFinished]) /\
  displayed (fst (mouseReleaseEvent event e)) = displayed e.
Proof. split; reflexivity. Qed.

(** * Painting *)

Lemma land_lor_same s f : Z.land (Z.lor s f) f = f.
Proof.
  apply Z.bits_inj'. intros n _. rewrite Z.land_spec, Z.lor_spec.
  destruct (Z.testbit s n), (Z.testbit f n); reflexivity.
Qed.

Lemma land_lor_other s f g :
  Z.land f g = 0 -> Z.land (Z.lor s f) g = Z.land s g.
Proof.
  intros H. rewrite Z.land_lor_distr_l, H. apply Z.lor_0_r.
Qed.

Lemma testFlag_set s f : f <> 0 -> testFlag (Z.lor s f) f = true.
Proof.
  intros Hf. unfold testFlag. rewrite land_lor_same.
  destruct (Z.eqb_spec f 0); [contradiction|reflexivity].
Qed.

Lemma testFlag_set_other s f g :
  Z.land f g = 0 -> testFlag (Z.lor s f) g = testFlag s g.
Proof.
  intros H. unfold testFlag. now rewrite land_lor_other.
Qed.

(** C7, as stated, fails on the code: the selected flag is set when the
    selection model reports the cell selected, and is never cleared.  An
    editor created on a selected cell still paints as selected after the
    selection has gone. *)
Lemma paintEvent_selected_counterexample :
  let e := deselectedEditor in
  let e' := fst (paintEvent (rect (m_styleOption e)) e) in
  queriedSelection e = Some false /\
  testFlag (state (m_styleOption e')) State_Selected = true.
Proof. split; reflexivity. Qed.

(** The option [paintEvent] stores has the bounds of the widget for
    rectangle. *)
Lemma paintEvent_option bounds e :
  exists o,
    paintEvent bounds e =
    (set_styleOption e o,
     [Painted (renderHelper (m_pTableView e) o (m_starRating e))]) /\
    rect o = bounds.
Proof.
  destruct e as [pTableView index option rating count].
  unfold paintEvent.
  cbn [m_pTableView m_index m_styleOption m_starRating set_styleOption].
  destruct pTableView as [view|];
    [destruct (selectionModel view) as [model|];
     [destruct (isSelected model index)|]|];
    eexists; split; reflexivity.
Qed.

(** C7, amended.  On every paint the editor refreshes the rectangle of the
    style option to the bounds of the widget, sets the mouse-over flag,
    sets the selected flag when the hosting view has a selection model and
    it reports the index of the edited cell selected, leaves the selected
    flag as it was otherwise, leaves every other flag and the palette as
    they were, and delegates drawing to the render helper. *)
Theorem paintEvent_refreshes bounds e :
  exists o,
    paintEvent bounds e =
    (set_styleOption e o,
     [Painted (renderHelper (m_pTableView e) o (m_starRating e))]) /\
    rect o = bounds /\
    palette o = palette (m_styleOption e) /\
    testFlag (state o) State_MouseOver = true /\
    testFlag (state o) State_Selected =
    (testFlag (state (m_styleOption e)) State_Selected
     || match queriedSelection e with Some b => b | None => false end) /\
    (forall g,
        Z.land State_MouseOver g = 0 -> Z.land State_Selected g = 0 ->
        testFlag (state o) g = testFlag (state (m_styleOption e)) g).
Proof.
  destruct e as [pTableView index option rating count].
  unfold paintEvent, queriedSelection.
  cbn [m_pTableView m_index m_styleOption m_starRating set_styleOption].
  destruct pTableView as [view|];
    [destruct (selectionModel view) as [model|];
     [destruct (isSelected model index)|]|];
    (eexists; split; [reflexivity|]);
    cbn [rect palette state set_state set_rect];
    (split; [reflexivity|]); (split; [reflexivity|]).
  - split; [rewrite testFlag_set_other by reflexivity;
            apply testFlag_set; discriminate|].
    split; [rewrite testFlag_set by discriminate; apply eq_sym, orb_true_r|].
    intros g H1 H2. now rewrite !testFlag_set_other by assumption.
  - split; [apply testFlag_set; discriminate|].
    split; [rewrite testFlag_set_other by reflexivity;
            apply eq_sym, orb_false_r|].
    intros g H1 H2. now rewrite testFlag_set_other by assumption.
  - split; [apply testFlag_set; discriminate|].
    split; [rewrite testFlag_set_other by reflexivity;
            apply eq_sym, orb_false_r|].
    intros g H1 H2. now rewrite testFlag_set_other by assumption.
  - split; [apply testFlag_set; discriminate|].
    split; [rewrite testFlag_set_other by reflexivity;
            apply eq_sym, orb_false_r|].
    intros g H1 H2. now rewrite testFlag_set_other by assumption.
Qed.

(** C8. The render helper takes the color group [Disabled] when the
    enabled flag is unset, [Inactive] when the enabled flag is set and the
    active flag is unset, [Normal] otherwise; its brush is the
    highlighted-text color of the palette for that group when the selected
    flag is set, the text color otherwise.  It sets no other brush. *)
Theorem renderHelper_brush pTableView option pStarRating :
  let cg :=
    if negb (testFlag (state option) State_Enabled) then Disabled
    else if negb (testFlag (state option) State_Active) then Inactive
    else Normal in
  let role :=
    if testFlag (state option) State_Selected then HighlightedText
    else Text in
  exists before after,
    renderHelper pTableView option pStarRating =
    before ++ SetBrush (palette option cg role) :: after /\
    (forall c, ~ In (SetBrush c) before) /\
    (forall c, ~ In (SetBrush c) after).
Proof.
  cbv zeta. unfold renderHelper, painterScope.
  exists ([Save; SetClipRect (rect option)] ++
          match pTableView with
          | Some view =>
              match style view with
              | Some s => [DrawItemViewItem s option]
              | None => []
              end
          | None => []
          end),
         [PaintStars pStarRating (rect option); Restore].
  split; [|split].
  - destruct pTableView as [view|]; [destruct (style view)|];
      destruct (testFlag (state option) State_Enabled),
        (testFlag (state option) State_Active),
        (testFlag (state option) State_Selected); reflexivity.
  - intros c Hin. apply in_app_or in Hin.
    destruct Hin as [[H|[H|[]]]|Hin]; try discriminate H.
    destruct pTableView as [view|]; [|destruct Hin].
    destruct (style view); [|destruct Hin].
    destruct Hin as [H|[]]. discriminate H.
  - intros c [H|[H|[]]]; discriminate H.
Qed.

(** * The stored rating over the lifetime of the editor *)

Lemma handle_valid ev e e' fx :
  valid e -> handle ev e = Some (e', fx) ->
  valid e' /\ maxStars e' = maxStars e /\
  forall n, In (SetStarCount n) fx ->
            StarRating.kMinStarCount <= n <= maxStars e.
Proof.
  intros Hv Hh. pose proof Hv as [Hd Hc].
  assert (Hreset : valid (fst (resetRating e)) /\
                   maxStars (fst (resetRating e)) = maxStars e /\
                   forall n, In (SetStarCount n) (snd (resetRating e)) ->
                             StarRating.kMinStarCount <= n <= maxStars e).
  { split; [split; assumption|]. split; [reflexivity|].
    intros n [[= <-]|[[=]|[]]]. assumption. }
  destruct ev as [m| |m|bounds]; cbn [handle] in Hh.
  - destruct (starAtPosition e (ev_x m)) as [star|] eqn:Hs;
      [|unfold mouseMoveEvent in Hh; rewrite Hs in Hh; discriminate].
    rewrite (mouseMoveEvent_star m e star Hs) in Hh.
    pose proof (starAtPosition_result e (ev_x m) star
                  ltac:(unfold StarRating.kMinStarCount in *; lia) Hs) as Hr.
    destruct (Z.eqb_spec star kInvalidStarCount) as [E|E].
    + injection Hh as <- <-. exact Hreset.
    + destruct Hr as [Hr|Hr]; [contradiction|].
      destruct (Z.eqb_spec star (displayed e)) as [Es|Es];
        injection Hh as <- <-.
      * split; [assumption|]. split; [reflexivity|]. intros n [].
      * split; [split; assumption|]. split; [reflexivity|].
        intros n [[= <-]|[[=]|[]]]. assumption.
  - injection Hh as <- <-. exact Hreset.
  - injection Hh as <- <-.
    split; [assumption|]. split; [reflexivity|]. intros n [[=]|[]].
  - injection Hh as <- <-.
    split; [assumption|]. split; [reflexivity|]. intros n [[=]|[]].
Qed.

Lemma run_valid evs : forall e e' fx,
  valid e -> run evs e = Some (e', fx) ->
  valid e' /\ maxStars e' = maxStars e /\
  forall n, In (SetStarCount n) fx ->
            StarRating.kMinStarCount <= n <= maxStars e.
Proof.
  induction evs as [|ev rest IH]; intros e e' fx Hv Hr; cbn [run] in Hr.
  - injection Hr as <- <-.
    split; [assumption|]. split; [reflexivity|]. intros n [].
  - destruct (handle ev e) as [[e1 fx1]|] eqn:Hh; [|discriminate].
    destruct (run rest e1) as [[e2 fx2]|] eqn:Hrest; [|discriminate].
    injection Hr as <- <-.
    destruct (handle_valid ev e e1 fx1 Hv Hh) as (Hv1 & Hm1 & Hf1).
    destruct (IH e1 e2 fx2 Hv1 Hrest) as (Hv2 & Hm2 & Hf2).
    split; [assumption|]. split; [congruence|].
    intros n Hin. apply in_app_or in Hin. destruct Hin as [Hin|Hin].
    + apply Hf1, Hin.
    + rewrite <- Hm1. apply Hf2, Hin.
Qed.

(** C9. Along every run of the editor the stored displayed count lies in
    [[0, maxStarCount]], and no call of [setStarCount] receives the
    sentinel: a sentinel returned by [starAtPosition] makes
    [mouseMoveEvent] reset the rating to the last confirmed value. *)
Theorem lifetime_rating_valid pTableView index option rating events e' fx :
  StarRating.kMinStarCount <= StarRating.starCount rating
                           <= StarRating.maxStarCount rating ->
  run events (create pTableView index option rating) = Some (e', fx) ->
  0 <= displayed e' <= maxStars e' /\
  (forall n, In (SetStarCount n) fx ->
             n <> kInvalidStarCount /\ 0 <= n <= maxStars e') /\
  (forall ev e, starAtPosition e (ev_x ev) = Some kInvalidStarCount ->
                mouseMoveEvent ev e = Some (resetRating e)).
Proof.
  intros Hr Hrun.
  assert (Hv : valid (create pTableView index option rating)).
  { unfold valid, displayed, maxStars, create; cbn.
    unfold StarRating.kMinStarCount in *. lia. }
  destruct (run_valid events _ e' fx Hv Hrun) as ([Hd _] & Hm & Hf).
  unfold kInvalidStarCount, StarRating.kMinStarCount in *.
  split; [exact Hd|]. split.
  - intros n Hin. specialize (Hf n Hin). rewrite Hm. lia.
  - intros ev e Hs. rewrite (mouseMoveEvent_star ev e _ Hs).
    reflexivity.
Qed.

Lemma lifetime_rating_valid_witness :
  exists e' fx,
    run [MouseMove {| ev_x := 25; button := NoButton |};
         MouseMove {| ev_x := 150; button := NoButton |};
         MouseMove {| ev_x := 60; button := NoButton |};
         MouseRelease {| ev_x := 60; button := LeftButton |}]
        (create None {| row := 0; column := 0 |}
                (sampleOption 100 State_Enabled) (sampleRating 100 5)) =
    Some (e', fx) /\
    0 <= displayed e' <= maxStars e' /\
    (forall n, In (SetStarCount n) fx ->
               n <> kInvalidStarCount /\ 0 <= n <= maxStars e') /\
    (forall ev e, starAtPosition e (ev_x ev) = Some kInvalidStarCount ->
                  mouseMoveEvent ev e = Some (resetRating e)).
Proof.
  eexists _, _. split; [vm_compute; reflexivity|].
  apply (lifetime_rating_valid None {| row := 0; column := 0 |}
           (sampleOption 100 State_Enabled) (sampleRating 100 5)
           [MouseMove {| ev_x := 25; button := NoButton |};
            MouseMove {| ev_x := 150; button := NoButton |};
            MouseMove {| ev_x := 60; button := NoButton |};
            MouseRelease {| ev_x := 60; button := LeftButton |}]).
  - unfold sampleRating, StarRating.kMinStarCount. simpl. lia.
  - vm_compute. reflexivity.
Defined.

(** ** Runs are defined

    On an editor whose stars are at least one pixel wide, every sequence of
    deliverable events is handled without undefined behaviour. *)

Lemma quot2_upper d : d <= Int.max -> Z.quot d 2 <= 2 ^ 30 - 1.
Proof.
  unfold Int.max. intros Hd. destruct (Z.le_ge_cases 0 d) as [H|H].
  - rewrite Z.quot_div_nonneg by lia.
    assert (d / 2 < 2 ^ 30) by (apply Z.div_lt_upper_bound; lia). lia.
  - replace d with (- - d) by lia. rewrite Z.quot_opp_l by lia.
    rewrite Z.quot_div_nonneg by lia.
    pose proof (Z.div_pos (- d) 2 ltac:(lia) ltac:(lia)). lia.
Qed.

Lemma ready_in_domain e x :
  ready e -> - 2 ^ 30 <= x <= Int.max -> in_domain e x.
Proof.
  intros (Hm & Hw & Hc) Hx.
  pose proof (quot2_upper (cellWidth e - starsWidth e) ltac:(lia)) as Hq.
  unfold in_domain, shifted, xOffset, Int.in_range in *.
  unfold Int.min, Int.max in *. lia.
Qed.

Lemma handle_defined ev e :
  ready e -> deliverable ev ->
  exists e' fx, handle ev e = Some (e', fx) /\ ready e'.
Proof.
  intros Hr Hev. destruct ev as [m| |m|bounds]; cbn [handle deliverable] in *.
  - destruct (starAtPosition_defined e (ev_x m)
                (ready_in_domain e (ev_x m) Hr Hev) ltac:(apply Hr))
      as [star Hs].
    rewrite (mouseMoveEvent_star m e star Hs).
    destruct (star =? kInvalidStarCount); [|destruct (star =? displayed e)];
      eexists _, _; (split; [reflexivity|exact Hr]).
  - eexists _, _. split; [reflexivity|exact Hr].
  - eexists _, _. split; [reflexivity|exact Hr].
  - destruct (paintEvent_option bounds e) as [o [Ep Eo]].
    rewrite Ep. eexists _, _. split; [reflexivity|].
    destruct Hr as (Hm & Hw & Hc).
    unfold ready, cellWidth, starsWidth, maxStars in *.
    cbn [m_styleOption m_starRating set_styleOption]. rewrite Eo.
    repeat split; try apply Hm; try apply Hw; apply Hev.
Qed.

(** X17. On an editor with [1 <= maxStarCount <= starsWidth] and a cell
    that has a width, every sequence of deliverable events is handled
    without undefined behaviour: no division by zero and no overflow. *)
Lemma run_defined evs : forall e,
  ready e -> Forall deliverable evs ->
  exists e' fx, run evs e = Some (e', fx).
Proof.
  induction evs as [|ev rest IH]; intros e Hr Hall; cbn [run].
  - eexists _, _. reflexivity.
  - inversion Hall as [|? ? Hev Hrest]; subst.
    destruct (handle_defined ev e Hr Hev) as (e1 & fx1 & Hh & Hr1).
    rewrite Hh. destruct (IH e1 Hr1 Hrest) as (e2 & fx2 & Hrun).
    rewrite Hrun. eexists _, _. reflexivity.
Qed.

(** * Further properties of the mapper *)

(** X1. Whatever the editor and the position, a value returned by
    [starAtPosition] is the sentinel, 0, or a count between 1 and
    [maxStarCount]. *)
Theorem starAtPosition_values e x star :
  starAtPosition e x = Some star ->
  star = kInvalidStarCount \/ star = 0 \/ 1 <= star <= maxStars e.
Proof.
  unfold starAtPosition. fold (maxStars e).
  destruct (Int.sub _ _) as [d|]; [|discriminate]. cbn [bind].
  destruct (Int.div d 2) as [h|]; [|discriminate]. cbn [bind].
  destruct (Int.sub x _) as [x'|]; [|discriminate]. cbn [bind].
  destruct (_ || _); [intros [= <-]; auto|].
  destruct (Double.ltb _ _); [intros [= <-]; auto|].
  destruct (Int.div _ (maxStars e)) as [q|]; [|discriminate]. cbn [bind].
  destruct (Int.div x' q) as [p|]; [|discriminate]. cbn [bind].
  destruct (Int.add p 1) as [s|]; [|discriminate]. cbn [bind].
  zbool; intros [= <-]; auto. right. right. lia.
Qed.

Lemma starAtPosition_values_witness :
  2 = kInvalidStarCount \/ 2 = 0 \/ 1 <= 2 <= maxStars (sampleEditor 100 100 5).
Proof.
  apply (starAtPosition_values (sampleEditor 100 100 5) 25 2).
  vm_compute. reflexivity.
Defined.

(** X2. Left of the first star: when the centering offset exceeds 5% of
    [starsWidth], the positions up to 5% of [starsWidth] left of the stars
    give 0 stars; every other position left of the stars gives the
    sentinel. *)
Theorem starAtPosition_left_margin e x :
  in_domain e x -> shifted e x < 0 ->
  (starAtPosition e x = Some 0 <->
   (fivePercent (starsWidth e) < inject_Z (xOffset e))%Q /\
   (- fivePercent (starsWidth e) <= inject_Z (shifted e x))%Q) /\
  (starAtPosition e x = Some 0 \/
   starAtPosition e x = Some kInvalidStarCount).
Proof.
  intros Hdom HX. rewrite (starAtPosition_exact e x Hdom). q2z.
  unfold kInvalidStarCount, StarRating.kMinStarCount.
  destruct (Z.ltb_spec (starsWidth e) (20 * xOffset e));
    destruct (Z.ltb_spec (20 * shifted e x) (- starsWidth e));
    destruct (Z.ltb_spec (shifted e x) 0);
    destruct (Z.leb_spec (starsWidth e) (shifted e x));
    destruct (Z.ltb_spec (20 * shifted e x) (starsWidth e));
    cbn [orb]; try lia;
    (split; [split; [intros [= ]; lia|lia || (intros; reflexivity)]|auto]).
Qed.

Lemma starAtPosition_left_margin_witness :
  (starAtPosition (sampleEditor 200 100 5) 46 = Some 0 <->
   (fivePercent (starsWidth (sampleEditor 200 100 5))
    < inject_Z (xOffset (sampleEditor 200 100 5)))%Q /\
   (- fivePercent (starsWidth (sampleEditor 200 100 5))
    <= inject_Z (shifted (sampleEditor 200 100 5) 46))%Q) /\
  (starAtPosition (sampleEditor 200 100 5) 46 = Some 0 \/
   starAtPosition (sampleEditor 200 100 5) 46 = Some kInvalidStarCount).
Proof. apply starAtPosition_left_margin; domain. Defined.

(** Right of the stars the result is the sentinel. *)
Lemma starAtPosition_invalid_iff_aux e x :
  in_domain e x ->
  (shifted e x < 0 -> starsWidth e <= 0 ->
   starAtPosition e x = Some kInvalidStarCount) /\
  (starsWidth e <= shifted e x ->
   starAtPosition e x = Some kInvalidStarCount).
Proof.
  intros Hdom. rewrite (starAtPosition_exact e x Hdom).
  split; intros; zbool; try reflexivity; lia.
Qed.

(** Left of the stars the result is 0 or the sentinel. *)
Lemma starAtPosition_negative e x :
  in_domain e x -> shifted e x < 0 ->
  starAtPosition e x = Some 0 \/
  starAtPosition e x = Some kInvalidStarCount.
Proof.
  intros Hdom HX. rewrite (starAtPosition_exact e x Hdom).
  zbool; auto; lia.
Qed.

(** The result on the stars and the zero zone, for stars at least one pixel
    wide: the positions from 0 to [starsWidth - 1]. *)
Lemma starAtPosition_inside e x :
  in_domain e x -> 1 <= maxStars e <= starsWidth e ->
  0 <= shifted e x < starsWidth e ->
  starAtPosition e x =
  Some (if 20 * shifted e x <? starsWidth e then 0
        else if shifted e x / (starsWidth e / maxStars e) + 1 <=? maxStars e
             then shifted e x / (starsWidth e / maxStars e) + 1
             else 0).
Proof.
  intros Hdom Hm HX. rewrite (starAtPosition_exact e x Hdom).
  destruct Hdom as (Hr & _ & _).
  replace ((if starsWidth e <? 20 * xOffset e
            then 20 * shifted e x <? - starsWidth e
            else shifted e x <? 0) || (starsWidth e <=? shifted e x))
    with false by (zbool; lia).
  destruct (20 * shifted e x <? starsWidth e); [reflexivity|].
  apply star_count; assumption.
Qed.

(** X3. Each star is [starsWidth / maxStarCount] pixels wide: for stars at
    least one pixel wide and [k >= 1], [starAtPosition] returns [k] exactly
    on the positions of the [k]-th band of that width that lie right of the
    zero zone, for [k] up to [maxStarCount]. *)
Theorem starAtPosition_band e x k :
  in_domain e x -> 1 <= maxStars e <= starsWidth e -> 1 <= k ->
  starAtPosition e x = Some k <->
  k <= maxStars e /\
  (k - 1) * (starsWidth e / maxStars e) <= shifted e x
                                        < k * (starsWidth e / maxStars e) /\
  ~ (inject_Z (shifted e x) < fivePercent (starsWidth e))%Q.
Proof.
  intros Hdom Hm Hk.
  set (X := shifted e x). set (w := starsWidth e) in *.
  set (m := maxStars e) in *.
  assert (Hq : 1 <= w / m) by (apply Z.div_le_lower_bound; lia).
  assert (Hmq : m * (w / m) <= w) by (apply Z.mul_div_le; lia).
  split.
  - intros Hs.
    assert (HX : 0 <= X < w).
    { destruct (starAtPosition_invalid_iff_aux e x Hdom) as [Hin Hout].
      fold X w in Hin, Hout.
      destruct (Z.lt_ge_cases X 0) as [Hneg|Hpos].
      - destruct (starAtPosition_negative e x Hdom Hneg) as [E|E];
          fold X in E; rewrite E in Hs; injection Hs as <-;
          unfold kInvalidStarCount, StarRating.kMinStarCount in *; lia.
      - split; [assumption|].
        destruct (Z.lt_ge_cases X w) as [Hlt|Hge]; [assumption|].
        rewrite (Hout Hge) in Hs. injection Hs as <-.
        unfold kInvalidStarCount, StarRating.kMinStarCount in *. lia. }
    rewrite (starAtPosition_inside e x Hdom Hm HX) in Hs. fold X w m in Hs.
    q2z. fold X w.
    destruct (Z.ltb_spec (20 * X) w); [injection Hs as <-; lia|].
    destruct (Z.leb_spec (X / (w / m) + 1) m); injection Hs as <-; [|lia].
    split; [assumption|]. split; [|lia].
    replace (X / (w / m) + 1 - 1) with (X / (w / m)) by lia.
    pose proof (Z.mul_div_le X (w / m) ltac:(lia)).
    pose proof (Z.mul_succ_div_gt X (w / m) ltac:(lia)). lia.
  - intros (Hkm & HXb & H5). q2z. fold X w in H5.
    assert (Hk1 : 0 <= (k - 1) * (w / m)) by (apply Z.mul_nonneg_nonneg; lia).
    assert (Hkq : k * (w / m) <= m * (w / m))
      by (apply Z.mul_le_mono_nonneg_r; lia).
    rewrite (starAtPosition_inside e x Hdom Hm) by (fold X w; lia).
    fold X w m.
    destruct (Z.ltb_spec (20 * X) w); [lia|].
    assert (Hd : X / (w / m) = k - 1).
    { symmetry. apply (Z.div_unique _ _ _ (X - (k - 1) * (w / m))); lia. }
    rewrite Hd. destruct (Z.leb_spec (k - 1 + 1) m); [|lia].
    f_equal. lia.
Qed.

Lemma starAtPosition_band_witness :
  starAtPosition (sampleEditor 100 100 5) 25 = Some 2 <->
  2 <= maxStars (sampleEditor 100 100 5) /\
  (2 - 1) * (starsWidth (sampleEditor 100 100 5)
             / maxStars (sampleEditor 100 100 5))
  <= shifted (sampleEditor 100 100 5) 25
  < 2 * (starsWidth (sampleEditor 100 100 5)
         / maxStars (sampleEditor 100 100 5)) /\
  ~ (inject_Z (shifted (sampleEditor 100 100 5) 25)
     < fivePercent (starsWidth (sampleEditor 100 100 5)))%Q.
Proof. apply starAtPosition_band; [domain|domain|lia]. Defined.

Lemma div_succ_le_iff X q m :
  0 < q -> X / q + 1 <= m <-> X < m * q.
Proof.
  intros Hq. split; intros H.
  - destruct (Z.lt_ge_cases X (m * q)) as [Hlt|Hge]; [assumption|].
    assert (m <= X / q)
      by (apply Z.div_le_lower_bound; [lia|]; rewrite Z.mul_comm; exact Hge).
    lia.
  - assert (X / q < m)
      by (apply Z.div_lt_upper_bound; [lia|]; rewrite Z.mul_comm; exact H).
    lia.
Qed.

(** X4. For stars at least one pixel wide, [starAtPosition] returns 0
    exactly on the zero zone, from [leftVoid] to 5% of [starsWidth], and on
    the pixels left over right of the last star, from
    [maxStarCount * (starsWidth / maxStarCount)] to [starsWidth - 1]. *)
Theorem starAtPosition_zero_iff e x :
  in_domain e x -> 1 <= maxStars e <= starsWidth e ->
  starAtPosition e x = Some 0 <->
  ((leftVoid e <= inject_Z (shifted e x))%Q /\
   (inject_Z (shifted e x) < fivePercent (starsWidth e))%Q) \/
  maxStars e * (starsWidth e / maxStars e) <= shifted e x < starsWidth e.
Proof.
  intros Hdom Hm.
  set (X := shifted e x). set (w := starsWidth e) in *.
  set (m := maxStars e) in *.
  assert (Hq : 1 <= w / m) by (apply Z.div_le_lower_bound; lia).
  assert (Hmq : m <= m * (w / m)).
  { replace m with (m * 1) at 1 by lia. apply Z.mul_le_mono_nonneg_l; lia. }
  assert (Hvoid : (leftVoid e <= inject_Z X)%Q <->
                  (if w <? 20 * xOffset e then - w <= 20 * X else 0 <= X)).
  { unfold leftVoid. fold w.
    destruct (Qlt_le_dec _ _) as [Hv|Hv]; q2z;
      destruct (Z.ltb_spec w (20 * xOffset e)); lia. }
  rewrite Hvoid. clear Hvoid. q2z. fold X w.
  destruct (Z.lt_ge_cases X 0) as [Hneg|Hpos];
    [|destruct (Z.lt_ge_cases X w) as [Hlt|Hge]].
  - rewrite (starAtPosition_exact e x Hdom). fold X w.
    unfold kInvalidStarCount, StarRating.kMinStarCount.
    destruct (Z.ltb_spec w (20 * xOffset e));
      destruct (Z.ltb_spec (20 * X) (- w));
      destruct (Z.ltb_spec X 0);
      destruct (Z.leb_spec w X);
      destruct (Z.ltb_spec (20 * X) w); cbn [orb]; try lia;
      (split; [intros [= ]; lia|intros; reflexivity || lia]).
  - rewrite (starAtPosition_inside e x Hdom Hm) by (fold X w; lia).
    fold X w m.
    pose proof (Z.div_pos X (w / m) ltac:(lia) ltac:(lia)) as Hp.
    pose proof (div_succ_le_iff X (w / m) m ltac:(lia)) as Hband.
    destruct (Z.ltb_spec w (20 * xOffset e));
      destruct (Z.ltb_spec (20 * X) w);
      try (split; [intros _; left; lia|reflexivity]);
      (destruct (Z.leb_spec (X / (w / m) + 1) m) as [Hs|Hs];
       [split; [intros [= ]; lia|lia]
       |split; [intros _; right; lia|reflexivity]]).
  - destruct (starAtPosition_invalid_iff_aux e x Hdom) as [_ Hout].
    rewrite (Hout Hge).
    unfold kInvalidStarCount, StarRating.kMinStarCount.
    split; [intros [= ]|].
    destruct (Z.ltb_spec w (20 * xOffset e)); lia.
Qed.

Lemma starAtPosition_zero_iff_witness :
  starAtPosition (sampleEditor 101 101 5) 100 = Some 0 <->
  ((leftVoid (sampleEditor 101 101 5)
    <= inject_Z (shifted (sampleEditor 101 101 5) 100))%Q /\
   (inject_Z (shifted (sampleEditor 101 101 5) 100)
    < fivePercent (starsWidth (sampleEditor 101 101 5)))%Q) \/
  maxStars (sampleEditor 101 101 5)
  * (starsWidth (sampleEditor 101 101 5) / maxStars (sampleEditor 101 101 5))
  <= shifted (sampleEditor 101 101 5) 100
  < starsWidth (sampleEditor 101 101 5).
Proof. apply starAtPosition_zero_iff; domain. Defined.

Lemma quot_bounds a b : 0 <= a -> b <> 0 -> - a <= Z.quot a b <= a.
Proof.
  intros Ha Hb. destruct (Z.lt_ge_cases 0 b) as [Hp|Hn].
  - rewrite Z.quot_div_nonneg by lia.
    pose proof (Z.div_pos a b Ha Hp).
    assert (a / b <= a) by (apply Z.div_le_upper_bound; nia). lia.
  - replace b with (- - b) by lia. rewrite Z.quot_opp_r by lia.
    rewrite Z.quot_div_nonneg by lia.
    pose proof (Z.div_pos a (- b) Ha ltac:(lia)).
    assert (a / - b <= a) by (apply Z.div_le_upper_bound; nia). lia.
Qed.

(** X5. On positions whose shift does not overflow, [starAtPosition] is
    undefined exactly when the position reaches the star computation, right
    of the zero zone and left of [starsWidth], and a divisor is zero:
    [maxStarCount] is 0, or exceeds [starsWidth] in magnitude, which makes
    the width of one star 0. *)
Theorem starAtPosition_undefined_iff e x :
  in_domain e x ->
  starAtPosition e x = None <->
  ~ (inject_Z (shifted e x) < fivePercent (starsWidth e))%Q /\
  shifted e x < starsWidth e /\
  (maxStars e = 0 \/ starsWidth e < Z.abs (maxStars e)).
Proof.
  intros Hdom. rewrite (starAtPosition_exact e x Hdom).
  destruct Hdom as (Hr & _ & Hxr). q2z.
  set (X := shifted e x) in *. set (w := starsWidth e) in *.
  set (m := maxStars e) in *.
  destruct (Z.ltb_spec w (20 * xOffset e));
    destruct (Z.ltb_spec (20 * X) (- w));
    destruct (Z.ltb_spec X 0);
    destruct (Z.leb_spec w X);
    destruct (Z.ltb_spec (20 * X) w); cbn [orb];
    try (split; [discriminate|lia]);
    (unfold Int.in_range, Int.min, Int.max in Hr, Hxr;
     unfold Int.div at 1;
     destruct (Z.eqb_spec m 0) as [Em|Em];
     [cbn [bind]; split; [intros _; lia|reflexivity]|];
     pose proof (quot_bounds w m ltac:(lia) Em) as Hq;
     rewrite checked_in_range
       by (unfold Int.in_range, Int.min, Int.max; lia);
     cbn [bind]; unfold Int.div;
     pose proof (Z.quot_small_iff w m Em) as Hsmall;
     rewrite (Z.abs_eq w) in Hsmall by lia;
     destruct (Z.eqb_spec (Z.quot w m) 0) as [Eq|Eq];
     [cbn [bind]; split; [intros _; lia|reflexivity]|];
     pose proof (quot_bounds X (Z.quot w m) ltac:(lia) Eq) as Hp;
     rewrite checked_in_range
       by (unfold Int.in_range, Int.min, Int.max; lia);
     cbn [bind]; unfold Int.add;
     rewrite checked_in_range
       by (unfold Int.in_range, Int.min, Int.max; lia);
     cbn [bind];
     split; [destruct (_ || _); discriminate|lia]).
Qed.

Lemma starAtPosition_undefined_iff_witness :
  starAtPosition (sampleEditor 2 2 5) 1 = None <->
  ~ (inject_Z (shifted (sampleEditor 2 2 5) 1)
     < fivePercent (starsWidth (sampleEditor 2 2 5)))%Q /\
  shifted (sampleEditor 2 2 5) 1 < starsWidth (sampleEditor 2 2 5) /\
  (maxStars (sampleEditor 2 2 5) = 0 \/
   starsWidth (sampleEditor 2 2 5) < Z.abs (maxStars (sampleEditor 2 2 5))).
Proof. apply starAtPosition_undefined_iff. domain. Defined.

(** X6. On the stars the result does not depend on the width of the cell:
    two editors with the same rating return the same result at positions
    with the same non-negative offset from the first star. *)
Theorem starAtPosition_centered e1 e2 x1 x2 :
  in_domain e1 x1 -> in_domain e2 x2 ->
  starsWidth e1 = starsWidth e2 -> maxStars e1 = maxStars e2 ->
  shifted e1 x1 = shifted e2 x2 -> 0 <= shifted e1 x1 ->
  starAtPosition e1 x1 = starAtPosition e2 x2.
Proof.
  intros Hd1 Hd2 Hw Hm HX H0.
  rewrite (starAtPosition_exact e1 x1 Hd1), (starAtPosition_exact e2 x2 Hd2).
  rewrite <- Hw, <- Hm, <- HX.
  destruct (Z.leb_spec (starsWidth e1) (shifted e1 x1)).
  - rewrite !orb_true_r. reflexivity.
  - replace (if starsWidth e1 <? 20 * xOffset e1
             then 20 * shifted e1 x1 <? - starsWidth e1
             else shifted e1 x1 <? 0) with false by (zbool; lia).
    replace (if starsWidth e1 <? 20 * xOffset e2
             then 20 * shifted e1 x1 <? - starsWidth e1
             else shifted e1 x1 <? 0) with false by (zbool; lia).
    reflexivity.
Qed.

Lemma starAtPosition_centered_witness :
  starAtPosition (sampleEditor 100 100 5) 25 =
  starAtPosition (sampleEditor 200 100 5) 75.
Proof. apply starAtPosition_centered; domain. Defined.

(** X7. The binary64 tests of [starAtPosition] are exact on [int]
    operands: [x < w * 0.05], [w * 0.05 < x] and [x < w * -0.05], evaluated
    in [double], hold exactly when they hold for the rational numbers. *)
Theorem five_percent_tests_exact x w :
  Int.in_range x -> Int.in_range w ->
  (Double.ltb (Double.of_int x)
              (Double.mul (Double.of_int w) Double.lit_0_05) = true <->
   (inject_Z x < fivePercent w)%Q) /\
  (Double.ltb (Double.mul (Double.of_int w) Double.lit_0_05)
              (Double.of_int x) = true <->
   (fivePercent w < inject_Z x)%Q) /\
  (Double.ltb (Double.of_int x)
              (Double.mul (Double.of_int w) (Double.neg Double.lit_0_05))
   = true <->
   (inject_Z x < - fivePercent w)%Q).
Proof.
  intros Hx Hw.
  rewrite ltb_five_percent, five_percent_ltb, ltb_minus_five_percent
    by assumption.
  rewrite !Z.ltb_lt. q2z. lia.
Qed.

Lemma five_percent_tests_exact_witness :
  (Double.ltb (Double.of_int 5)
              (Double.mul (Double.of_int 101) Double.lit_0_05) = true <->
   (inject_Z 5 < fivePercent 101)%Q) /\
  (Double.ltb (Double.mul (Double.of_int 101) Double.lit_0_05)
              (Double.of_int 5) = true <->
   (fivePercent 101 < inject_Z 5)%Q) /\
  (Double.ltb (Double.of_int 5)
              (Double.mul (Double.of_int 101) (Double.neg Double.lit_0_05))
   = true <->
   (inject_Z 5 < - fivePercent 101)%Q).
Proof.
  apply five_percent_tests_exact;
    unfold Int.in_range, Int.min, Int.max; lia.
Defined.

(** * Further properties of the handlers *)

(** The mapper reads the width of the cell, the width of the stars and
    [maxStarCount], and nothing else of the editor. *)
Lemma starAtPosition_reads e1 e2 x :
  cellWidth e1 = cellWidth e2 -> starsWidth e1 = starsWidth e2 ->
  maxStars e1 = maxStars e2 ->
  starAtPosition e1 x = starAtPosition e2 x.
Proof.
  unfold cellWidth, starsWidth, maxStars, starAtPosition.
  intros -> -> ->. reflexivity.
Qed.

(** [paintEvent] keeps the palette of the option. *)
Lemma paintEvent_frame bounds e :
  exists o,
    paintEvent bounds e =
    (set_styleOption e o,
     [Painted (renderHelper (m_pTableView e) o (m_starRating e))]) /\
    palette o = palette (m_styleOption e).
Proof.
  destruct e as [pTableView index option rating count].
  unfold paintEvent.
  cbn [m_pTableView m_index m_styleOption m_starRating set_styleOption].
  destruct pTableView as [view|];
    [destruct (selectionModel view) as [model|];
     [destruct (isSelected model index)|]|];
    eexists; split; reflexivity.
Qed.

(** What each handler leaves as it was. *)
Lemma handle_frame ev e e' fx :
  handle ev e = Some (e', fx) ->
  m_starCount e' = m_starCount e /\ m_index e' = m_index e /\
  m_pTableView e' = m_pTableView e /\
  StarRating.maxStarCount (m_starRating e') =
  StarRating.maxStarCount (m_starRating e) /\
  sizeHint e' = sizeHint e /\
  palette (m_styleOption e') = palette (m_styleOption e).
Proof.
  destruct ev as [m| |m|bounds]; cbn [handle].
  - unfold mouseMoveEvent.
    destruct (starAtPosition e (ev_x m)) as [star|]; [|discriminate].
    cbn [bind].
    destruct (star <=? kInvalidStarCount);
      [|destruct (negb (star =? StarRating.starCount (m_starRating e)))];
      intros [= <- <-]; repeat split.
  - intros [= <- <-]. repeat split.
  - intros [= <- <-]. repeat split.
  - destruct (paintEvent_frame bounds e) as (o & Ep & Eo).
    rewrite Ep. intros [= <- <-]. repeat split. exact Eo.
Qed.

(** X8. No run of events changes the last confirmed count, the index of
    the edited cell, the hosting view, [maxStarCount], the size hint or the
    palette of the option. *)
Theorem run_frame evs : forall e e' fx,
  run evs e = Some (e', fx) ->
  m_starCount e' = m_starCount e /\ m_index e' = m_index e /\
  m_pTableView e' = m_pTableView e /\
  StarRating.maxStarCount (m_starRating e') =
  StarRating.maxStarCount (m_starRating e) /\
  sizeHint e' = sizeHint e /\
  palette (m_styleOption e') = palette (m_styleOption e).
Proof.
  induction evs as [|ev rest IH]; intros e e' fx Hr; cbn [run] in Hr.
  - injection Hr as <- <-. repeat split.
  - destruct (handle ev e) as [[e1 fx1]|] eqn:Hh; [|discriminate].
    destruct (run rest e1) as [[e2 fx2]|] eqn:Hrest; [|discriminate].
    injection Hr as <- <-.
    destruct (handle_frame ev e e1 fx1 Hh) as (H1 & H2 & H3 & H4 & H5 & H6).
    destruct (IH e1 e2 fx2 Hrest) as (G1 & G2 & G3 & G4 & G5 & G6).
    repeat split; congruence.
Qed.

Lemma run_frame_witness :
  exists e' fx,
    run [MouseMove {| ev_x := 25; button := NoButton |}; Leave;
         Paint {| rect_x := 0; rect_y := 0;
                  rect_width := 120; rect_height := 20 |}]
        (sampleEditor 100 100 5) = Some (e', fx) /\
    m_starCount e' = m_starCount (sampleEditor 100 100 5) /\
    m_index e' = m_index (sampleEditor 100 100 5) /\
    m_pTableView e' = m_pTableView (sampleEditor 100 100 5) /\
    StarRating.maxStarCount (m_starRating e') =
    StarRating.maxStarCount (m_starRating (sampleEditor 100 100 5)) /\
    sizeHint e' = sizeHint (sampleEditor 100 100 5) /\
    palette (m_styleOption e') =
    palette (m_styleOption (sampleEditor 100 100 5)).
Proof.
  eexists _, _. split; [vm_compute; reflexivity|].
  eapply (run_frame
            [MouseMove {| ev_x := 25; button := NoButton |}; Leave;
             Paint {| rect_x := 0; rect_y := 0;
                      rect_width := 120; rect_height := 20 |}]).
  reflexivity.
Defined.

Lemma handle_finished ev e e' fx :
  handle ev e = Some (e', fx) ->
  length (filter isFinished fx) = if isRelease ev then 1%nat else 0%nat.
Proof.
  destruct ev as [m| |m|bounds]; cbn [handle isRelease].
  - unfold mouseMoveEvent.
    destruct (starAtPosition e (ev_x m)) as [star|]; [|discriminate].
    cbn [bind].
    destruct (star <=? kInvalidStarCount);
      [|destruct (negb (star =? StarRating.starCount (m_starRating e)))];
      intros [= <- <-]; reflexivity.
  - intros [= <- <-]. reflexivity.
  - intros [= <- <-]. reflexivity.
  - unfold paintEvent. intros [= <- <-]. reflexivity.
Qed.

(** X9. In every run the editor emits [editingFinished] once for each
    pointer release, and at no other event. *)
Theorem editingFinished_per_release evs : forall e e' fx,
  run evs e = Some (e', fx) ->
  length (filter isFinished fx) = length (filter isRelease evs).
Proof.
  induction evs as [|ev rest IH]; intros e e' fx Hr; cbn [run] in Hr.
  - injection Hr as <- <-. reflexivity.
  - destruct (handle ev e) as [[e1 fx1]|] eqn:Hh; [|discriminate].
    destruct (run rest e1) as [[e2 fx2]|] eqn:Hrest; [|discriminate].
    injection Hr as <- <-.
    rewrite filter_app, length_app, (handle_finished ev e e1 fx1 Hh),
      (IH e1 e2 fx2 Hrest).
    cbn [filter]. destruct (isRelease ev); reflexivity.
Qed.

Lemma editingFinished_per_release_witness :
  exists e' fx,
    run [MouseMove {| ev_x := 25; button := NoButton |};
         MouseRelease {| ev_x := 25; button := LeftButton |}; Leave]
        (sampleEditor 100 100 5) = Some (e', fx) /\
    length (filter isFinished fx) =
    length (filter isRelease
              [MouseMove {| ev_x := 25; button := NoButton |};
               MouseRelease {| ev_x := 25; button := LeftButton |}; Leave]).
Proof.
  eexists _, _. split; [vm_compute; reflexivity|].
  eapply (editingFinished_per_release
            [MouseMove {| ev_x := 25; button := NoButton |};
             MouseRelease {| ev_x := 25; button := LeftButton |}; Leave]
            (sampleEditor 100 100 5)).
  reflexivity.
Defined.

(** X10. A second pointer move to the same position changes nothing and
    requests nothing, when the position is in the interactive zone. *)
Theorem mouseMoveEvent_twice event e e1 fx1 :
  mouseMoveEvent event e = Some (e1, fx1) ->
  starAtPosition e (ev_x event) <> Some kInvalidStarCount ->
  mouseMoveEvent event e1 = Some (e1, []).
Proof.
  intros Hm Hs.
  destruct (starAtPosition e (ev_x event)) as [star|] eqn:Es;
    [|unfold mouseMoveEvent in Hm; rewrite Es in Hm; discriminate].
  rewrite (mouseMoveEvent_star event e star Es) in Hm.
  destruct (Z.eqb_spec star kInvalidStarCount) as [E|E]; [congruence|].
  assert (Es1 : starAtPosition e1 (ev_x event) = Some star /\
                displayed e1 = star).
  { destruct (Z.eqb_spec star (displayed e)) as [Ed|Ed];
      injection Hm as <- <-; split; auto. }
  destruct Es1 as [Es1 Ed1].
  rewrite (mouseMoveEvent_star event e1 star Es1).
  destruct (Z.eqb_spec star kInvalidStarCount); [contradiction|].
  rewrite Ed1, Z.eqb_refl. reflexivity.
Qed.

Lemma mouseMoveEvent_twice_witness :
  exists e1 fx1,
    mouseMoveEvent {| ev_x := 25; button := NoButton |}
                   (sampleEditor 100 100 5) = Some (e1, fx1) /\
    mouseMoveEvent {| ev_x := 25; button := NoButton |} e1 = Some (e1, []).
Proof.
  eexists _, _. split; [vm_compute; reflexivity|].
  eapply (mouseMoveEvent_twice {| ev_x := 25; button := NoButton |}
                               (sampleEditor 100 100 5)).
  - reflexivity.
  - vm_compute. discriminate.
Defined.

(** Outside the interactive zone the result is the sentinel. *)
Lemma starAtPosition_outside e x :
  in_domain e x ->
  (inject_Z (shifted e x) < leftVoid e)%Q \/ starsWidth e <= shifted e x ->
  starAtPosition e x = Some kInvalidStarCount.
Proof.
  intros Hdom Hout. rewrite (starAtPosition_exact e x Hdom).
  unfold leftVoid in Hout.
  destruct (Qlt_le_dec _ _) as [Hq|Hq]; q2z;
    destruct (Z.ltb_spec (starsWidth e) (20 * xOffset e)); try lia;
    zbool; try reflexivity; lia.
Qed.

(** X11. A pointer move to a position outside the interactive zone, left
    of [leftVoid] or at [starsWidth] and beyond, does what leaving the
    widget does. *)
Theorem mouseMoveEvent_outside event e :
  in_domain e (ev_x event) ->
  (inject_Z (shifted e (ev_x event)) < leftVoid e)%Q \/
  starsWidth e <= shifted e (ev_x event) ->
  mouseMoveEvent event e = Some (leaveEvent e).
Proof.
  intros Hdom Hout.
  rewrite (mouseMoveEvent_star event e _
             (starAtPosition_outside e (ev_x event) Hdom Hout)).
  rewrite Z.eqb_refl. reflexivity.
Qed.

Lemma mouseMoveEvent_outside_witness :
  mouseMoveEvent {| ev_x := 150; button := NoButton |}
                 (sampleEditor 100 100 5) =
  Some (leaveEvent (sampleEditor 100 100 5)).
Proof.
  apply mouseMoveEvent_outside; [domain|]. right. domain.
Defined.

(** X12. The mapping from positions to counts changes only when a paint
    finds the widget with another width: after any other event, and after
    a paint in bounds of the same width, [starAtPosition] returns what it
    returned before. *)
Theorem handle_keeps_mapping ev e e' fx x :
  handle ev e = Some (e', fx) ->
  (forall bounds, ev = Paint bounds -> rect_width bounds = cellWidth e) ->
  starAtPosition e' x = starAtPosition e x.
Proof.
  intros Hh Hw. apply starAtPosition_reads;
    destruct ev as [m| |m|bounds]; cbn [handle] in Hh;
    try (injection Hh as <- <-; reflexivity);
    try (unfold mouseMoveEvent in Hh;
         destruct (starAtPosition e (ev_x m)) as [star|]; [|discriminate];
         cbn [bind] in Hh;
         destruct (star <=? kInvalidStarCount);
         [|destruct (negb (star =? StarRating.starCount (m_starRating e)))];
         injection Hh as <- <-; reflexivity);
    destruct (paintEvent_option bounds e) as (o & Ep & Eo);
    rewrite Ep in Hh; injection Hh as <- <-; try reflexivity.
  unfold cellWidth. cbn [m_styleOption set_styleOption]. rewrite Eo.
  apply Hw. reflexivity.
Qed.

Lemma handle_keeps_mapping_witness :
  exists e' fx,
    handle Leave (sampleEditor 100 100 5) = Some (e', fx) /\
    starAtPosition e' 25 = starAtPosition (sampleEditor 100 100 5) 25.
Proof.
  eexists _, _. split; [reflexivity|].
  eapply (handle_keeps_mapping Leave (sampleEditor 100 100 5)).
  - reflexivity.
  - intros bounds H. discriminate H.
Defined.

Lemma lor_twice s a : Z.lor (Z.lor s a) a = Z.lor s a.
Proof. rewrite <- Z.lor_assoc, Z.lor_diag. reflexivity. Qed.

Lemma lor_pair_twice s a b :
  Z.lor (Z.lor (Z.lor (Z.lor s a) b) a) b = Z.lor (Z.lor s a) b.
Proof.
  apply Z.bits_inj'. intros n _. rewrite !Z.lor_spec.
  destruct (Z.testbit s n), (Z.testbit a n), (Z.testbit b n); reflexivity.
Qed.

(** X13. Painting twice in the same bounds is painting once: the second
    paint leaves the editor as the first left it and makes the same painter
    calls. *)
Theorem paintEvent_idempotent bounds e :
  paintEvent bounds (fst (paintEvent bounds e)) = paintEvent bounds e.
Proof.
  destruct e as [pTableView index option rating count].
  unfold paintEvent.
  cbn [m_pTableView m_index m_styleOption m_starRating set_styleOption fst].
  destruct pTableView as [view|];
    [destruct (selectionModel view) as [model|];
     [destruct (isSelected model index)|]|];
    cbn [m_pTableView m_index m_styleOption m_starRating set_styleOption fst
         set_state set_rect rect state palette];
    rewrite ?lor_pair_twice, ?lor_twice; reflexivity.
Qed.

(** X14. The render helper asks the style of the view to draw the item
    exactly when there is a view and the view has a style, and passes it
    the option it was given; without one or the other it draws no
    background. *)
Theorem renderHelper_chrome pTableView option pStarRating s o :
  In (DrawItemViewItem s o) (renderHelper pTableView option pStarRating) <->
  o = option /\
  exists view, pTableView = Some view /\ style view = Some s.
Proof.
  unfold renderHelper, painterScope. rewrite !in_app_iff. cbn [In].
  assert (Hb : forall a b : QColor,
             (if testFlag (state option) State_Selected
              then SetBrush a else SetBrush b) <> DrawItemViewItem s o)
    by (intros a b; destruct (testFlag _ _); discriminate).
  split.
  - intros [[H|[]]|[[[H|[]]|[H|[H|[H|[]]]]]|[H|[]]]];
      try discriminate H; try (exfalso; exact (Hb _ _ H)).
    destruct pTableView as [view|]; [|destruct H].
    destruct (style view) as [s'|] eqn:Es; [|destruct H].
    destruct H as [H|[]]. injection H as <- <-.
    split; [reflexivity|]. exists view. split; [reflexivity|assumption].
  - intros (-> & view & -> & Hs). rewrite Hs.
    right. left. right. left. left. reflexivity.
Qed.

(** The option a paint leaves in the editor, and hands to the render
    helper. *)
Lemma paintEvent_state bounds e :
  paintEvent bounds e =
  let o :=
    {| rect := bounds;
       state :=
         Z.lor (Z.lor (state (m_styleOption e)) State_MouseOver)
               (match queriedSelection e with
                | Some true => State_Selected
                | _ => 0
                end);
       palette := palette (m_styleOption e) |} in
  (set_styleOption e o,
   [Painted (renderHelper (m_pTableView e) o (m_starRating e))]).
Proof.
  destruct e as [pTableView index option rating count].
  unfold paintEvent, queriedSelection.
  cbn [m_pTableView m_index m_styleOption m_starRating set_styleOption].
  destruct pTableView as [view|];
    [destruct (selectionModel view) as [model|];
     [destruct (isSelected model index)|]|];
    cbv zeta; unfold set_state, set_rect; cbn [rect state palette];
    rewrite ?Z.lor_0_r; reflexivity.
Qed.

(** The calls of the render helper other than the background. *)
Lemma renderHelper_calls pTableView option pStarRating op :
  In op (renderHelper pTableView option pStarRating) ->
  (forall s o, op <> DrawItemViewItem s o) ->
  op = Save \/ op = Restore \/ op = SetClipRect (rect option) \/
  op = PaintStars pStarRating (rect option) \/
  op = SetBrush
         (palette option
            (if negb (testFlag (state option) State_Enabled) then Disabled
             else if negb (testFlag (state option) State_Active)
                  then Inactive else Normal)
            (if testFlag (state option) State_Selected
             then HighlightedText else Text)).
Proof.
  unfold renderHelper, painterScope. rewrite !in_app_iff. cbn [In].
  intros H Hd.
  destruct H as [[H|[]]|[[[H|[]]|[H|[H|[H|[]]]]]|[H|[]]]];
    try subst op; auto 6.
  - exfalso. destruct pTableView as [view|]; [|destruct H].
    destruct (style view) as [s'|]; [|destruct H].
    destruct H as [H|[]]. exact (Hd _ _ (eq_sym H)).
  - do 4 right.
    destruct (testFlag (state option) State_Enabled),
      (testFlag (state option) State_Active),
      (testFlag (state option) State_Selected); reflexivity.
Qed.

(** X15. The brush of a paint: its color group follows the enabled and
    active flags the option had before the paint, and its role is the
    highlighted text when the option was already selected or the selection
    model reports the cell selected, the text otherwise. *)
Theorem paintEvent_brush bounds e ops c :
  In (Painted ops) (snd (paintEvent bounds e)) ->
  In (SetBrush c) ops ->
  c = palette (m_styleOption e)
        (if negb (testFlag (state (m_styleOption e)) State_Enabled)
         then Disabled
         else if negb (testFlag (state (m_styleOption e)) State_Active)
              then Inactive else Normal)
        (if testFlag (state (m_styleOption e)) State_Selected
            || match queriedSelection e with Some b => b | None => false end
         then HighlightedText else Text).
Proof.
  rewrite paintEvent_state. cbv zeta. cbn [snd In].
  intros [[= <-]|[]] Hin.
  apply renderHelper_calls in Hin; [|discriminate].
  destruct Hin as [H|[H|[H|[H|H]]]]; try discriminate H.
  injection H as ->. cbn [state palette].
  assert (He : forall f g, Z.land State_MouseOver g = 0 ->
                           Z.land f g = 0 ->
             testFlag (Z.lor (Z.lor (state (m_styleOption e)) State_MouseOver)
                             f) g = testFlag (state (m_styleOption e)) g).
  { intros f g H1 H2. now rewrite !testFlag_set_other by assumption. }
  destruct (queriedSelection e) as [[|]|].
  - rewrite !He by reflexivity.
    rewrite testFlag_set by discriminate. rewrite orb_true_r. reflexivity.
  - rewrite !He by reflexivity. rewrite orb_false_r. reflexivity.
  - rewrite !He by reflexivity. rewrite orb_false_r. reflexivity.
Qed.

Lemma paintEvent_brush_witness :
  0xe0e0e0 =
  palette (m_styleOption deselectedEditor)
    (if negb (testFlag (state (m_styleOption deselectedEditor)) State_Enabled)
     then Disabled
     else if negb (testFlag (state (m_styleOption deselectedEditor))
                            State_Active)
          then Inactive else Normal)
    (if testFlag (state (m_styleOption deselectedEditor)) State_Selected
        || match queriedSelection deselectedEditor with
           | Some b => b
           | None => false
           end
     then HighlightedText else Text).
Proof.
  eapply (paintEvent_brush (rect (m_styleOption deselectedEditor))
                           deselectedEditor).
  - left. reflexivity.
  - vm_compute. do 3 right. left. reflexivity.
Defined.

(** X16. A paint clips the painter to the bounds of the widget and to no
    other rectangle, and paints the stars of the rating the editor displays
    in these bounds and nowhere else. *)
Theorem paintEvent_paints bounds e ops :
  In (Painted ops) (snd (paintEvent bounds e)) ->
  (forall r a, In (PaintStars r a) ops <-> r = m_starRating e /\ a = bounds) /\
  (forall c, In (SetClipRect c) ops <-> c = bounds).
Proof.
  rewrite paintEvent_state. cbv zeta. cbn [snd In].
  intros [[= <-]|[]]. split.
  - intros r a. split.
    + intros Hin. apply renderHelper_calls in Hin; [|discriminate].
      destruct Hin as [H|[H|[H|[H|H]]]]; try discriminate H.
      injection H as -> ->. split; reflexivity.
    + intros [-> ->]. unfold renderHelper, painterScope.
      rewrite !in_app_iff. cbn [In rect].
      right. left. right. right. right. left. reflexivity.
  - intros c. split.
    + intros Hin. apply renderHelper_calls in Hin; [|discriminate].
      destruct Hin as [H|[H|[H|[H|H]]]]; try discriminate H.
      injection H as ->. reflexivity.
    + intros ->. unfold renderHelper, painterScope.
      rewrite !in_app_iff. cbn [In rect].
      right. left. left. left. reflexivity.
Qed.

Lemma paintEvent_paints_witness :
  exists ops,
    In (Painted ops)
       (snd (paintEvent (rect (m_styleOption deselectedEditor))
                        deselectedEditor)) /\
    (forall r a,
        In (PaintStars r a) ops <->
        r = m_starRating deselectedEditor /\
        a = rect (m_styleOption deselectedEditor)) /\
    (forall c,
        In (SetClipRect c) ops <-> c = rect (m_styleOption deselectedEditor)).
Proof.
  eexists. split; [left; reflexivity|].
  apply (paintEvent_paints (rect (m_styleOption deselectedEditor))
                           deselectedEditor).
  left. reflexivity.
Defined.

Lemma run_defined_witness :
  exists e' fx,
    run [MouseMove {| ev_x := -5; button := NoButton |};
         Paint {| rect_x := 0; rect_y := 0;
                  rect_width := 300; rect_height := 20 |};
         MouseMove {| ev_x := 170; button := NoButton |};
         MouseRelease {| ev_x := 170; button := LeftButton |}]
        (sampleEditor 100 100 5) = Some (e', fx).
Proof.
  apply run_defined.
  - unfold ready, maxStars, starsWidth, cellWidth, Int.max. simpl. lia.
  - repeat constructor; unfold Int.max; simpl; lia.
Defined.
